(** * summarize_vehicle: route model, per-vehicle fold and staging store

    A shallow embedding of [src/summarize/summarize.py] and of the parts of
    [src/database/postgresql_client.py] it drives.

    - Python [str] is [string] (marks are ASCII tokens), Python [int] is [Z],
      Python [float] is the kernel's binary64 [float], [None] is [None].
    - A raised exception is the [Raise] case of [result]; [try/except] is a
      [match] on it.
    - The relational store is a finite map from relation names to their rows;
      one connection sees a working copy that [commit] publishes and
      [rollback] discards.
    - The worker pool is run one task after the other: a task is a function
      of the committed state, its plate and its rows, and commits nothing. *)

From stdpp Require Import gmap strings list sorting.
From Stdlib Require Import ZArith Floats Ascii String OrdersEx Lia.

Open Scope Z_scope.

(** ** Exceptions *)

Inductive exn : Type :=
| ValueError | IndexError | OverflowError | TypeError | NameError
| RuntimeError | OSError | IOError
| DatabaseError          (* database.postgresql_client.DatabaseError *)
| PsycopgError.          (* psycopg2.Error, raised by the server or driver *)

Inductive result (A : Type) : Type :=
| Ok (a : A)
| Raise (e : exn).
Arguments Ok {A} a.
Arguments Raise {A} e.

#[global] Instance result_ret : MRet result := λ A a, Ok a.
#[global] Instance result_bind : MBind result :=
  λ A B f r, match r with Ok a => f a | Raise e => Raise e end.

Definition is_ok {A} (r : result A) : bool :=
  match r with Ok _ => true | Raise _ => false end.

(** ** Route model *)

(** A [str] is modelled by a [string] with one [ascii] per character: the
    texts whose characters are below U+0100. *)
Module Route.

(** [str.strip()]: the white space of [str.isspace] below U+0100, which is
    U+0009 to U+000D, U+001C to U+0020, U+0085 and U+00A0. *)
Definition is_space (c : ascii) : bool :=
  let n := nat_of_ascii c in
  ((9 <=? n)%nat && (n <=? 13)%nat) || ((28 <=? n)%nat && (n <=? 32)%nat) ||
  (n =? 133)%nat || (n =? 160)%nat.

Fixpoint lstrip (s : string) : string :=
  match s with
  | String c s' => if is_space c then lstrip s' else s
  | EmptyString => EmptyString
  end.

Fixpoint rstrip (s : string) : string :=
  match s with
  | EmptyString => EmptyString
  | String c s' =>
      match rstrip s' with
      | EmptyString => if is_space c then EmptyString else String c EmptyString
      | r => String c r
      end
  end.

Definition strip (s : string) : string := rstrip (lstrip s).

(** [\d]: below U+0100 the decimal digits are [0] to [9]. *)
Definition is_digit (c : ascii) : bool :=
  let n := nat_of_ascii c in (48 <=? n)%nat && (n <=? 57)%nat.

Definition digit_value (c : ascii) : Z := Z.of_nat (nat_of_ascii c) - 48.

(** The greedy [\d*] prefix of a string and what follows it. *)
Fixpoint span_digits (s : string) : string * string :=
  match s with
  | String c s' =>
      if is_digit c
      then let '(ds, rest) := span_digits s' in (String c ds, rest)
      else (EmptyString, s)
  | EmptyString => (EmptyString, EmptyString)
  end.

(** [$] without [re.MULTILINE]: the end of the text, or a final newline. *)
Definition at_end (s : string) : bool :=
  match s with
  | EmptyString => true
  | String c EmptyString => (nat_of_ascii c =? 10)%nat
  | _ => false
  end.

(** [re.match(r"^K(\d+)\+(\d{3})$", s)]: the two groups, or [None]. *)
Definition match_mark (s : string) : option (string * string) :=
  match s with
  | String "K" rest =>
      match span_digits rest with
      | (String d ds, String "+" (String a (String b (String c tail)))) =>
          if is_digit a && is_digit b && is_digit c && at_end tail
          then Some (String d ds, String a (String b (String c EmptyString)))
          else None
      | _ => None
      end
  | _ => None
  end.

(** The value of a text of decimal digits. *)
Fixpoint int_of_digits (acc : Z) (s : string) : Z :=
  match s with
  | EmptyString => acc
  | String c s' => int_of_digits (10 * acc + digit_value c) s'
  end.

(** [sys.int_info.default_max_str_digits]: the most digits CPython's [int]
    converts. *)
Definition int_max_str_digits : Z := 4300.

(** [int(text)] on a text of decimal digits: [ValueError] for more digits
    than the limit. *)
Definition int (s : string) : result Z :=
  if int_max_str_digits <? Z.of_nat (String.length s) then Raise ValueError
  else Ok (int_of_digits 0 s).

(** The conversion of an [int] operand in mixed [int]/[float] arithmetic:
    round to nearest even, [OverflowError] beyond the binary64 range. *)
Definition float_of_int (z : Z) : result float :=
  let f := SF2Prim (binary_normalize prec emax z 0 false) in
  if is_infinity f then Raise OverflowError else Ok f.

(** [mark_parse], summarize.py lines 31-44. *)
Definition mark_parse (mark : string) : result float :=
  match match_mark (strip mark) with
  | None => Raise ValueError
  | Some (g1, g2) =>
      km_part ← int g1;
      meter_part ← int g2;
      m ← float_of_int meter_part;
      k ← float_of_int km_part;
      Ok (k + m / 1000)%float
  end.

(** [mileage_diff], summarize.py lines 46-57. *)
Definition mileage_diff (mark1 mark2 : string) : result float :=
  index1 ← mark_parse mark1;
  index2 ← mark_parse mark2;
  Ok (abs (index1 - index2) / 1000)%float.

(** [path.startswith(mark)]. *)
Fixpoint starts_with (path mark : string) : bool :=
  match mark, path with
  | EmptyString, _ => true
  | String a mark', String b path' => Ascii.eqb a b && starts_with path' mark'
  | String _ _, EmptyString => false
  end.

(** [mark in path] where [path] is a [str]: substring containment. *)
Fixpoint contains (path mark : string) : bool :=
  starts_with path mark ||
  match path with
  | EmptyString => false
  | String _ path' => contains path' mark
  end.

(** The MarkToken format [K<km>+<mmm>]: what the pattern of [mark_parse]
    accepts when [$] is the end of the text. *)
Definition is_mark_token (t : string) : bool :=
  match t with
  | String "K" rest =>
      match span_digits rest with
      | (String _ _, String "+" (String a (String b (String c EmptyString)))) =>
          is_digit a && is_digit b && is_digit c
      | _ => false
      end
  | _ => false
  end.

(** The default of [business.standard_path], summarize.py lines 80-82. *)
Definition default_standard_path : list (list string) :=
  [ ["K0001+000"; "K0100+000"; "K0200+000"; "K0300+000"];
    ["K0001+300"; "K0100+300"; "K0100+300"; "K0100+300"] ]%string.

(** One [for loc, path in enumerate(direction)] scan: the [loc] of the first
    [path] with [mark in path]. *)
Fixpoint scan (mark : string) (direction : list string) (loc : nat) : option nat :=
  match direction with
  | [] => None
  | path :: rest => if contains path mark then Some loc else scan mark rest (S loc)
  end.

Definition subscript {A} (l : list A) (i : nat) : result A :=
  match l !! i with Some x => Ok x | None => Raise IndexError end.

(** [path_index], summarize.py lines 86-104. *)
Definition path_index (standard_path : list (list string)) (mark : option string)
  : result Z :=
  match mark with
  | None => Raise ValueError
  | Some mark =>
      outbound ← subscript standard_path 0;
      match scan mark outbound 0 with
      | Some loc => Ok (Z.of_nat loc)
      | None =>
          inbound ← subscript standard_path 1;
          match scan mark inbound 0 with
          | Some loc => Ok (Z.of_nat loc + 10000)
          | None => Raise ValueError
          end
      end
  end.

(** [is_continuous], summarize.py lines 106-117. *)
Definition is_continuous (standard_path : list (list string)) (mark1 mark2 : string)
  : result bool :=
  index1 ← path_index standard_path (Some mark1);
  index2 ← path_index standard_path (Some mark2);
  Ok (index1 - index2 =? 1).

End Route.


(** ** Rows of the store *)

(** A row of [filtered_trace_data], [staging_trace_data] or [vehicle_record],
    and the dict the engine gets for it. The column [seq] of the staging
    relation is never read by summarize.py and is left out. *)
Record record : Type := {
  plate : string;
  mark : option string;
  pass_time : option Z;          (* TIMESTAMP, or NULL *)
}.

Record raw_row : Type := {
  raw_plate : option string;
  raw_pass_time : option string;
  raw_mark : option string;
}.

(** A row of [vehicle_info] (init_db.py); [bonus], [mileage] and [points]
    carry defaults and are taken non-NULL. *)
Record vehicle_info_row : Type := {
  vi_username : option string;
  vi_phone_num : string;
  vi_plate : string;
  vi_vehicle_type : option string;
  vi_bonus : float;
  vi_last_record : option string;
  vi_last_record_time : option Z;
  vi_mileage : float;
  vi_points : float;
}.

#[global] Instance record_eq_dec : EqDecision record.
Proof. solve_decision. Defined.

(** ** The per-vehicle fold *)

Module Fold.
Import Route.

(** The loop variables of [_process_single_plate]. *)
Record fold_state : Type := {
  last_record : option string;
  last_record_time : option Z;
  mileage : float;
}.

(** [pass_time < last_record_time] behind [last_record_time is not None]. *)
Definition stale (st : fold_state) (r : record) : result bool :=
  match last_record_time st with
  | None => Ok false
  | Some t =>
      match pass_time r with
      | Some p => Ok (p <? t)
      | None => Raise TypeError
      end
  end.

(** An event is fresh when the ledger has no time yet or the event is not
    earlier than it. *)
Definition fresh (st : fold_state) (r : record) : Prop :=
  last_record_time st = None ∨
  ∃ t p : Z, last_record_time st = Some t ∧ pass_time r = Some p ∧ t <= p.

(** One iteration of the loop, summarize.py lines 289-309. *)
Definition process_record (standard_path : list (list string))
    (st : fold_state) (r : record) : result fold_state :=
  skip ← stale st r;
  if (skip : bool) then Ok st
  else
    mileage' ←
      match mark r, last_record st with
      | Some m, Some lr =>
          continuous ← is_continuous standard_path m lr;
          if (continuous : bool)
          then diff ← mileage_diff m lr; Ok (mileage st + diff)%float
          else Ok (mileage st)
      | _, _ => Ok (mileage st)
      end;
    Ok {| last_record := mark r;
          last_record_time := pass_time r;
          mileage := mileage' |}.

(** The loop, summarize.py lines 288-309. *)
Fixpoint fold_records (standard_path : list (list string))
    (st : fold_state) (records : list record) : result fold_state :=
  match records with
  | [] => Ok st
  | r :: rest =>
      st' ← process_record standard_path st r;
      fold_records standard_path st' rest
  end.

(** A mark the route model answers for: it has a position and it parses. *)
Definition known (standard_path : list (list string)) (m : string) : Prop :=
  is_ok (path_index standard_path (Some m)) = true ∧ is_ok (mark_parse m) = true.

Definition timed_known (standard_path : list (list string)) (r : record) : Prop :=
  is_Some (pass_time r) ∧ ∀ m : string, mark r = Some m → known standard_path m.

(** The later of a ledger time and the time of an event. *)
Definition advance_time (t : option Z) (r : record) : option Z :=
  match t, pass_time r with
  | Some t, Some p => Some (Z.max t p)
  | Some t, None => Some t
  | None, p => p
  end.

Definition latest (t : option Z) (records : list record) : option Z :=
  fold_left advance_time records t.

End Fold.

(** ** The relational store *)

(** The rows of a stored relation, by the columns they have. *)
Inductive table_rows : Type :=
| RawTrace (rows : list raw_row)
| Trace (rows : list record)
| VehicleInfo (rows : list vehicle_info_row).

(** Relation names are resolved in one name space. *)
Abbreviation db := (gmap string table_rows).

(** The server and the connection of the processor's client: [conn] is the
    working copy the open connection sees, [committed] what other sessions
    see. *)
Record world : Type := {
  server_up : bool;
  committed : db;
  conn : option db;
}.

(** [ORDER BY plate, pass_time]: ascending, NULL last; plates in the order
    of their character codes. *)
Definition pass_time_leb (t1 t2 : option Z) : bool :=
  match t1, t2 with
  | Some a, Some b => a <=? b
  | _, None => true
  | None, Some _ => false
  end.

Definition record_leb (r1 r2 : record) : bool :=
  match String_as_OT.compare (plate r1) (plate r2) with
  | Lt => true
  | Gt => false
  | Eq => pass_time_leb (pass_time r1) (pass_time r2)
  end.

Definition record_le (r1 r2 : record) : Prop := record_leb r1 r2 = true.

#[global] Instance record_le_dec : RelDecision record_le.
Proof. intros r1 r2. unfold record_le. apply _. Defined.

(** ** PostgreSQLClient, on the working copy of its connection *)

Module Client.

Definition RAW_TABLE : string := "raw_trace_data".
Definition FILTERED_TABLE : string := "filtered_trace_data".
Definition STAGING_TABLE : string := "staging_trace_data".

(** [DROP TABLE IF EXISTS table]. *)
Definition drop_table_if_exists (table : string) (d : db) : result db :=
  Ok (delete table d).

(** [CREATE TEMP TABLE IF NOT EXISTS raw_trace_data (...)]. *)
Definition create_raw_table (d : db) : result db :=
  match d !! RAW_TABLE with
  | Some _ => Ok d
  | None => Ok (<[RAW_TABLE := RawTrace []]> d)
  end.

(** [CREATE TEMP TABLE IF NOT EXISTS filtered_trace_data (...)]. *)
Definition create_filtered_table (d : db) : result db :=
  match d !! FILTERED_TABLE with
  | Some _ => Ok d
  | None => Ok (<[FILTERED_TABLE := Trace []]> d)
  end.

(** One field of a COPY text line into [VARCHAR(width)]. *)
Definition copy_field (width : nat) (field : string) : option (option string) :=
  if decide (field = "\N") then Some None
  else if decide (String.length field ≤ width)%nat then Some (Some field)
  else None.

(** One line of the file, already split at [sep], for the columns
    [plate, pass_time, mark]. *)
Definition copy_line (fields : list string) : option raw_row :=
  match fields with
  | [f1; f2; f3] =>
      p ← copy_field 20 f1;
      t ← copy_field 50 f2;
      m ← copy_field 20 f3;
      Some {| raw_plate := p; raw_pass_time := t; raw_mark := m |}
  | _ => None
  end.

(** [copy_from]: every failure of the COPY is re-raised as [DatabaseError].
    The target must be a relation of three text columns. *)
Definition copy_from (lines : list (list string)) (table : string) (d : db)
  : result db :=
  match d !! table with
  | Some (RawTrace rows) =>
      match mapM copy_line lines with
      | Some new => Ok (<[table := RawTrace (rows ++ new)]> d)
      | None => Raise DatabaseError
      end
  | _ => Raise DatabaseError
  end.

Section ToTimestamp.

(** [TO_TIMESTAMP(text, 'YYYY/MM/DD HH24:MI')] of the server. *)
Context (to_timestamp : string → option Z).

Definition normalize (r : raw_row) (p : string) : option record :=
  match raw_pass_time r with
  | None => Some {| plate := p; mark := raw_mark r; pass_time := None |}
  | Some text =>
      t ← to_timestamp text;
      Some {| plate := p; mark := raw_mark r; pass_time := Some t |}
  end.

(** The rows of [raw JOIN vehicle_info ON plate], with the time converted. *)
Fixpoint joined (raw : list raw_row) (plates : list string) : option (list record) :=
  match raw with
  | [] => Some []
  | r :: rest =>
      match raw_plate r with
      | Some p =>
          if decide (p ∈ plates)
          then x ← normalize r p; xs ← joined rest plates; Some (x :: xs)
          else joined rest plates
      | None => joined rest plates
      end
  end.

(** [INSERT INTO filtered_trace_data SELECT DISTINCT ... FROM raw_trace_data
    JOIN vehicle_info ...]. *)
Definition import_from_raw_to_filtered (d : db) : result db :=
  match d !! FILTERED_TABLE, d !! RAW_TABLE, d !! "vehicle_info" with
  | Some (Trace old), Some (RawTrace raw), Some (VehicleInfo vehicles) =>
      match joined raw (vi_plate <$> vehicles) with
      | Some new => Ok (<[FILTERED_TABLE := Trace (old ++ remove_dups new)]> d)
      | None => Raise PsycopgError
      end
  | _, _, _ => Raise PsycopgError
  end.

End ToTimestamp.

(** [execute("SELECT COUNT( * ) AS imported_count FROM table")]. *)
Definition count_rows (table : string) (d : db) : result Z :=
  match d !! table with
  | Some (RawTrace rows) => Ok (Z.of_nat (List.length rows))
  | Some (Trace rows) => Ok (Z.of_nat (List.length rows))
  | Some (VehicleInfo rows) => Ok (Z.of_nat (List.length rows))
  | None => Raise PsycopgError
  end.

(** The rows [SELECT DISTINCT plate, mark, pass_time FROM filtered_trace_data
    WHERE mark IS NOT NULL] yields. *)
Definition staged_rows (filtered : list record) : list record :=
  remove_dups (filter (λ r, is_Some (mark r)) filtered).

(** [create_and_populate_staging]. *)
Definition create_and_populate_staging (d : db) : result db :=
  d1 ← drop_table_if_exists STAGING_TABLE d;
  match d1 !! FILTERED_TABLE with
  | Some (Trace filtered) => Ok (<[STAGING_TABLE := Trace (staged_rows filtered)]> d1)
  | _ => Raise PsycopgError
  end.

(** [import_from_staging_to_vehicle_record]; [vehicle_record.mark] is
    [NOT NULL]. *)
Definition import_from_staging_to_vehicle_record (d : db) : result db :=
  match d !! STAGING_TABLE, d !! "vehicle_record" with
  | Some (Trace staged), Some (Trace log) =>
      if forallb (λ r, bool_decide (is_Some (mark r))) staged
      then Ok (<["vehicle_record" := Trace (log ++ staged)]> d)
      else Raise PsycopgError
  | _, _ => Raise PsycopgError
  end.

(** [select(table, ["plate", "mark", "pass_time"], order_by="plate, pass_time")]. *)
Definition select_ordered (table : string) (d : db) : result (list record) :=
  match d !! table with
  | Some (Trace rows) => Ok (merge_sort record_le rows)
  | _ => Raise PsycopgError
  end.

(** [select("vehicle_info", [...], where="plate = %s", params=(plate,))]. *)
Definition select_vehicle_info (p : string) (d : db) : result (list vehicle_info_row) :=
  match d !! "vehicle_info" with
  | Some (VehicleInfo rows) => Ok (filter (λ row, vi_plate row = p) rows)
  | _ => Raise PsycopgError
  end.

Definition set_ledger (lr : option string) (lrt : option Z) (m pts : float)
    (row : vehicle_info_row) : vehicle_info_row :=
  {| vi_username := vi_username row; vi_phone_num := vi_phone_num row;
     vi_plate := vi_plate row; vi_vehicle_type := vi_vehicle_type row;
     vi_bonus := vi_bonus row;
     vi_last_record := lr; vi_last_record_time := lrt;
     vi_mileage := m; vi_points := pts |}.

(** [update("vehicle_info", {last_record, last_record_time, mileage, points},
    where="plate = %s", params=(plate,))]. *)
Definition update_vehicle_info (p : string) (lr : option string) (lrt : option Z)
    (m pts : float) (d : db) : result db :=
  match d !! "vehicle_info" with
  | Some (VehicleInfo rows) =>
      Ok (<["vehicle_info" :=
             VehicleInfo ((λ row, if decide (vi_plate row = p)
                                  then set_ledger lr lrt m pts row else row) <$> rows)]> d)
  | _ => Raise PsycopgError
  end.

(** [connect]: a new connection sees the committed state. *)
Definition connect (w : world) : result world :=
  if server_up w
  then Ok {| server_up := true; committed := committed w; conn := Some (committed w) |}
  else Raise PsycopgError.

End Client.

(** ** VehicleDataProcessor *)

Module Processor.
Import Route Fold Client.

(** The business parameters read in [__init__] and the host's
    [os.cpu_count()]. *)
Record processor : Type := {
  standard_path : list (list string);
  max_threads_multiplier : Z;
  cpu_count : option Z;
}.

(** The names bound at module level in summarize.py (lines 1-60); the
    builtins hold no [PostSQLClient] either. *)
Definition summarize_globals : list string :=
  [ "List"; "Dict"; "Any"; "Optional"; "defaultdict"; "Decimal";
    "PostgreSQLClient"; "csv"; "datetime"; "re"; "logging"; "os";
    "contextmanager"; "ThreadPoolExecutor"; "as_completed"; "threading";
    "sys"; "config_manager"; "log_config"; "logger";
    "mark_parse"; "mileage_diff"; "VehicleDataProcessor" ]%string.

(** The lookup of a global name when the function body runs. *)
Definition load_global (name : string) : result unit :=
  if decide (name ∈ summarize_globals) then Ok () else Raise NameError.

(** [db_connection], summarize.py lines 126-143, around a [with] body that
    runs on the working copy. A failure before the connection exists makes
    [rollback] itself raise [RuntimeError]. *)
Definition db_connection {A} (body : db → result (A * db)) (w : world)
  : result A * world :=
  match (match conn w with Some _ => Ok w | None => connect w end) with
  | Raise _ => (Raise RuntimeError, w)
  | Ok w1 =>
      match conn w1 with
      | None => (Raise RuntimeError, w1)
      | Some working =>
          match body working with
          | Ok (a, d) =>
              (Ok a, {| server_up := server_up w1; committed := d; conn := Some d |})
          | Raise e =>
              (Raise e, {| server_up := server_up w1; committed := committed w1;
                           conn := Some (committed w1) |})
          end
      end
  end.

(** The working copy a [with self.db_connection()] body runs on: that of
    the open connection, or of the one [connect] opens. *)
Definition working_copy (w : world) : option db :=
  match conn w with
  | Some d => Some d
  | None => if server_up w then Some (committed w) else None
  end.

(** The [with] body of [import_vehicle_trace_from_csv], lines 190-213.
    [file] is what [open] finds: the lines of the file, split at commas. *)
Definition import_trace_body (to_timestamp : string → option Z)
    (file : option (list (list string))) (d : db) : result (Z * db) :=
  d1 ← drop_table_if_exists "raw_table" d;
  d2 ← create_raw_table d1;
  lines ← match file with Some lines => Ok lines | None => Raise OSError end;
  d3 ← copy_from (tail lines) "raw_table" d2;
  d4 ← drop_table_if_exists "filtered_table" d3;
  d5 ← create_filtered_table d4;
  d6 ← import_from_raw_to_filtered to_timestamp d5;
  imported_count ← count_rows "raw_table" d6;
  d7 ← drop_table_if_exists "raw_table" d6;
  Ok (imported_count, d7).

(** [import_vehicle_trace_from_csv], summarize.py lines 181-215. *)
Definition import_vehicle_trace_from_csv (to_timestamp : string → option Z)
    (file : option (list (list string))) (w : world) : result Z * world :=
  match db_connection (import_trace_body to_timestamp file) w with
  | (Ok n, w') => (Ok n, w')
  | (Raise _, w') => (Raise IOError, w')
  end.

(** The fold state loaded from a ledger row, lines 281-283. *)
Definition loaded (row : vehicle_info_row) : fold_state :=
  {| last_record := vi_last_record row;
     last_record_time := vi_last_record_time row;
     mileage := vi_mileage row |}.

(** The [try] body of [_process_single_plate] from the SELECT on, lines
    267-324, on the working copy of the task's own connection. *)
Definition plate_task_body (standard_path : list (list string))
    (p : string) (records : list record) (session : db) : result (bool * db) :=
  vehicle_info ← select_vehicle_info p session;
  match vehicle_info with
  | [] => Ok (true, session)
  | row :: _ =>
      st ← fold_records standard_path (loaded row) records;
      let points := (mileage st * vi_bonus row)%float in
      session' ← update_vehicle_info p (last_record st) (last_record_time st)
                   (mileage st) points session;
      Ok (true, session')
  end.

(** The whole [try] body, lines 253-324: the result and the working copy of
    the task's connection. Each call has a fresh [threading.local()], so the
    client is always constructed. *)
Definition single_plate_try (self : processor) (w : world)
    (p : string) (records : list record) : result (bool * db) :=
  _ ← load_global "PostSQLClient";
  w' ← connect w;
  session ← match conn w' with Some s => Ok s | None => Raise RuntimeError end;
  plate_task_body (standard_path self) p records session.

(** [_process_single_plate], summarize.py lines 244-336. The task's
    connection is never committed, and the [finally] block finds no client
    to close. *)
Definition _process_single_plate (self : processor) (w : world)
    (p : string) (records : list record) : bool :=
  match single_plate_try self w p records with
  | Ok (b, _) => b
  | Raise _ => false
  end.

(** [plate_groups]: a dict of lists, keys in first-insertion order. *)
Fixpoint group_append (r : record) (groups : list (string * list record))
  : list (string * list record) :=
  match groups with
  | [] => [(plate r, [r])]
  | (p, rs) :: rest =>
      if decide (p = plate r) then (p, rs ++ [r]) :: rest
      else (p, rs) :: group_append r rest
  end.

Definition plate_groups (staging_data : list record) : list (string * list record) :=
  fold_left (λ groups r, group_append r groups) staging_data [].

Section Engine.

(** What [executor.submit] runs for one plate; the source submits the bound
    method [self._process_single_plate]. A future holds what the call
    returned or what it raised. *)
Context (submitted : string → list record → result bool).

(** The loop over completed futures, lines 378-391: the two counters. *)
Fixpoint collect (jobs : list (string * list record))
    (success_count failure_count : nat) : nat * nat :=
  match jobs with
  | [] => (success_count, failure_count)
  | (p, records) :: rest =>
      match submitted p records with
      | Ok true => collect rest (S success_count) failure_count
      | Ok false => collect rest success_count (S failure_count)
      | Raise _ => collect rest success_count (S failure_count)
      end
  end.


(** The size of the pool, line 364, and [ThreadPoolExecutor]'s check of it. *)
Definition pool_size (self : processor) (jobs : list (string * list record))
  : result Z :=
  match cpu_count self with
  | None => Raise TypeError
  | Some n =>
      let max_workers :=
        Z.min (Z.of_nat (List.length jobs)) (n * max_threads_multiplier self) in
      if max_workers <=? 0 then Raise ValueError else Ok max_workers
  end.

(** The [try] body of [_update_vehicle_info_from_staging], lines 346-393,
    with the two counts it logs. *)
Definition dispatch_with (self : processor) (d : db) : result (nat * nat) :=
  staging_data ← select_ordered "staging_table" d;
  let groups := plate_groups staging_data in
  _ ← pool_size self groups;
  Ok (collect groups 0%nat 0%nat).

(** [_update_vehicle_info_from_staging], lines 338-400: the counts are
    logged, an exception is logged and raised again. *)
Definition update_vehicle_info_from_staging_with (self : processor) (d : db)
  : result unit :=
  _ ← dispatch_with self d; Ok ().

(** Lines 226-230: the staging relation and the pass-record log. *)
Definition stage (d : db) : result db :=
  d1 ← drop_table_if_exists "staging_table" d;
  d2 ← create_and_populate_staging d1;
  import_from_staging_to_vehicle_record d2.

(** Lines 235-237: the two statements after the aggregation. *)
Definition drop_intermediate (d : db) : result db :=
  d1 ← drop_table_if_exists "filtered_table" d;
  drop_table_if_exists "staging_table" d1.

(** Lines 232-239: the aggregation, the two DROP statements and the
    result. *)
Definition finish_with (self : processor) (d3 : db) : result (bool * db) :=
  _ ← update_vehicle_info_from_staging_with self d3;
  d4 ← drop_intermediate d3;
  Ok (true, d4).

(** The [with] body of [process_vehicle_data], lines 225-239. *)
Definition process_body_with (self : processor) (d : db) : result (bool * db) :=
  d3 ← stage d;
  finish_with self d3.

(** [process_vehicle_data], lines 217-242. *)
Definition process_vehicle_data_with (self : processor) (w : world) : bool * world :=
  match db_connection (process_body_with self) w with
  | (Ok b, w') => (b, w')
  | (Raise _, w') => (false, w')
  end.

End Engine.

(** The engine as the source has it: every task is [_process_single_plate]
    on the state other sessions see. *)
Definition fold_task (self : processor) (w : world)
    (p : string) (records : list record) : result bool :=
  Ok (_process_single_plate self w p records).


Definition process_vehicle_data (self : processor) (w : world) : bool * world :=
  process_vehicle_data_with (fold_task self w) self w.

End Processor.

(** ** Sample data *)

Module Sample.
Import Fold Processor.

(** A ledger row at [K0001+000] with no mileage and bonus 2. *)
Definition ledger_row (t0 : Z) (points : float) : vehicle_info_row :=
  {| vi_username := Some "Li"; vi_phone_num := "13800000000";
     vi_plate := "A10001"; vi_vehicle_type := Some "truck";
     vi_bonus := 2;
     vi_last_record := Some "K0001+000"; vi_last_record_time := Some t0;
     vi_mileage := 0; vi_points := points |}.

Definition pass (m : string) (t : Z) : record :=
  {| plate := "A10001"; mark := Some m; pass_time := Some t |}.

Definition at_start : fold_state :=
  {| last_record := Some "K0001+000"; last_record_time := Some 0; mileage := 0 |}.

Definition ledger_db (t0 : Z) (points : float) : db :=
  {[ "vehicle_info" := VehicleInfo [ledger_row t0 points] ]}.

(** A store with one registered vehicle, an empty pass-record log and two
    filtered passes waiting for the aggregation. *)
Definition staged_db : db :=
  {[ "vehicle_info" := VehicleInfo [ledger_row 0 0];
     "vehicle_record" := Trace [];
     "filtered_trace_data" := Trace [pass "K0100+000" 1; pass "K0200+000" 2] ]}.




(** Two passes handed over latest first. *)
Definition out_of_order : list record :=
  [pass "K0200+000" 2; pass "K0100+000" 1].

End Sample.

(** ** The rest of the route model and of the engine *)

Module RouteMore.
Import Route.

(** The last character of a text is white space. *)
Fixpoint ends_with_space (s : string) : bool :=
  match s with
  | EmptyString => false
  | String c EmptyString => is_space c
  | String _ s' => ends_with_space s'
  end.

End RouteMore.

Module FoldBody.
Import Route Fold.

(** The loop body of [_process_single_plate] below its [continue],
    summarize.py lines 297-309: the mileage of the step and the move to the
    event. *)
Definition credit_and_move (standard_path : list (list string))
    (st : fold_state) (r : record) : result fold_state :=
  mileage' ←
    match mark r, last_record st with
    | Some m, Some lr =>
        continuous ← is_continuous standard_path m lr;
        if (continuous : bool)
        then diff ← mileage_diff m lr; Ok (mileage st + diff)%float
        else Ok (mileage st)
    | _, _ => Ok (mileage st)
    end;
  Ok {| last_record := mark r;
        last_record_time := pass_time r;
        mileage := mileage' |}.

(** The loop with the guard of lines 292-295 taken out: no event is
    skipped. *)
Fixpoint fold_every (standard_path : list (list string))
    (st : fold_state) (records : list record) : result fold_state :=
  match records with
  | [] => Ok st
  | r :: rest =>
      st' ← credit_and_move standard_path st r;
      fold_every standard_path st' rest
  end.

End FoldBody.

(** ** Vehicle master data: [import_vehicle_info_from_csv], [query_vehicles] *)

Module Vehicles.
Import Client Processor.

Fixpoint take_chars (n : nat) (s : string) : string :=
  match n, s with
  | S n', String c s' => String c (take_chars n' s')
  | _, _ => EmptyString
  end.

Fixpoint drop_chars (n : nat) (s : string) : string :=
  match n, s with
  | S n', String _ s' => drop_chars n' s'
  | _, _ => s
  end.

Fixpoint all_blank (s : string) : bool :=
  match s with
  | EmptyString => true
  | String c s' => Ascii.eqb c " " && all_blank s'
  end.

(** A text stored into [VARCHAR(n)]: a longer text is an error unless what
    exceeds [n] characters is blank, and then it is cut to [n]. A text has
    one [ascii] per character, as for the COPY fields above. *)
Definition varchar (n : nat) (s : string) : option string :=
  if decide (String.length s ≤ n)%nat then Some s
  else if all_blank (drop_chars n s) then Some (take_chars n s)
  else None.

(** The row an INSERT of the four imported columns creates: the other
    columns take their defaults (init_db.py). *)
Definition new_vehicle (username phone_num plate_ vehicle_type : string)
  : vehicle_info_row :=
  {| vi_username := Some username; vi_phone_num := phone_num;
     vi_plate := plate_; vi_vehicle_type := Some vehicle_type;
     vi_bonus := 1;
     vi_last_record := None; vi_last_record_time := None;
     vi_mileage := 0; vi_points := 0 |}.

(** [INSERT INTO vehicle_info (username, phone_num, plate, vehicle_type)
    VALUES (...)]: the column widths and [plate ... UNIQUE]. *)
Definition insert_statement (username phone_num plate_ vehicle_type : string)
    (d : db) : result db :=
  match d !! "vehicle_info" with
  | Some (VehicleInfo rows) =>
      match varchar 100 username, varchar 11 phone_num,
            varchar 20 plate_, varchar 50 vehicle_type with
      | Some u, Some ph, Some pl, Some vt =>
          if decide (pl ∈ vi_plate <$> rows) then Raise PsycopgError
          else Ok (<["vehicle_info" :=
                      VehicleInfo (rows ++ [new_vehicle u ph pl vt])]> d)
      | _, _, _, _ => Raise PsycopgError
      end
  | _ => Raise PsycopgError
  end.

(** [PostgreSQLClient.insert(table="vehicle_info", data={...})],
    postgresql_client.py lines 53-107, inside a transaction: a statement
    that fails rolls the connection back before the exception is raised
    again. The result is the exception or the 1 returned, and the working
    copy the connection is left with. *)
Definition insert (committed_ : db) (username phone_num plate_ vehicle_type : string)
    (working : db) : result Z * db :=
  match insert_statement username phone_num plate_ vehicle_type working with
  | Ok d => (Ok 1, d)
  | Raise e => (Raise e, committed_)
  end.

(** The loop of [import_vehicle_info_from_csv], lines 158-176, over the
    rows the csv reader yields. *)
Fixpoint import_rows (committed_ : db) (rows : list (list string))
    (imported_count : Z) (working : db) : Z * db :=
  match rows with
  | [] => (imported_count, working)
  | row :: rest =>
      match row with
      | [username; phone_num; plate_; vehicle_type] =>
          match insert committed_ username phone_num plate_ vehicle_type working with
          | (Ok _, d) => import_rows committed_ rest (imported_count + 1) d
          | (Raise _, d) => import_rows committed_ rest imported_count d
          end
      | _ => import_rows committed_ rest imported_count working
      end
  end.

(** The [with] body of [import_vehicle_info_from_csv], lines 155-176.
    [file] is what [open] finds and the csv reader yields: the rows it
    yields before it stops. [read_error] is the exception it stops with when
    the file does not read to its end (a [UnicodeDecodeError], a
    [csv.Error]): it is raised where the next row is asked for, in
    [next(reader)] or at the head of the loop, outside the [try] of the
    loop body. [next(reader)] on a file without a row raises
    [StopIteration]; [RuntimeError] stands for it here, and the caller turns
    every exception into [IOError]. *)
Definition import_info_body_with (read_error : option exn) (committed_ : db)
    (file : option (list (list string))) (working : db) : result (Z * db) :=
  rows ← match file with Some rows => Ok rows | None => Raise OSError end;
  match rows with
  | [] => match read_error with Some e => Raise e | None => Raise RuntimeError end
  | _ :: data =>
      let done := import_rows committed_ data 0 working in
      match read_error with Some e => Raise e | None => Ok done end
  end.

(** [import_vehicle_info_from_csv], summarize.py lines 145-179. *)
Definition import_vehicle_info_from_csv_with (read_error : option exn)
    (file : option (list (list string))) (w : world) : result Z * world :=
  match db_connection (import_info_body_with read_error (committed w) file) w with
  | (Ok n, w') => (Ok n, w')
  | (Raise _, w') => (Raise IOError, w')
  end.

(** The same on a file that reads to its end. *)
Definition import_info_body : db → option (list (list string)) → db → result (Z * db) :=
  import_info_body_with None.

Definition import_vehicle_info_from_csv
  : option (list (list string)) → world → result Z * world :=
  import_vehicle_info_from_csv_with None.

(** The rows of the file that have four fields. *)
Definition well_formed_rows (rows : list (list string)) : list (list string) :=
  filter (λ row, List.length row = 4%nat) rows.

(** [select("vehicle_info", [...])] without a WHERE clause. *)
Definition select_all_vehicle_info (d : db) : result (list vehicle_info_row) :=
  match d !! "vehicle_info" with
  | Some (VehicleInfo rows) => Ok rows
  | _ => Raise PsycopgError
  end.

(** The [with] body of [query_vehicles], lines 410-418: [plate] filters
    when it is neither [None] nor empty. *)
Definition query_body (plate_ : option string) (d : db)
  : result (list vehicle_info_row * db) :=
  rows ← match plate_ with
         | Some p =>
             if decide (p = EmptyString) then select_all_vehicle_info d
             else select_vehicle_info p d
         | None => select_all_vehicle_info d
         end;
  Ok (rows, d).

(** [query_vehicles], summarize.py lines 402-421. *)
Definition query_vehicles (plate_ : option string) (w : world)
  : list vehicle_info_row * world :=
  match db_connection (query_body plate_) w with
  | (Ok rows, w') => (rows, w')
  | (Raise _, w') => ([], w')
  end.

(** The columns of a ledger row the aggregation never writes. *)
Definition master_data (row : vehicle_info_row)
  : option string * string * string * option string * float :=
  (vi_username row, vi_phone_num row, vi_plate row, vi_vehicle_type row,
   vi_bonus row).

End Vehicles.

(** ** The request layer, app.py *)

(** The handlers are modelled from the call on the processor that
    [get_vehicle_processor] returns; closing the connection when the request
    ends is not part of them. *)
Module Web.
Import Client Processor.

(** [TRUNCATE TABLE table], as [truncate_table] and as the statement of
    [undo_import] send it. *)
Definition truncate_table (table : string) (d : db) : result db :=
  match d !! table with
  | Some (RawTrace _) => Ok (<[table := RawTrace []]> d)
  | Some (Trace _) => Ok (<[table := Trace []]> d)
  | Some (VehicleInfo _) => Ok (<[table := VehicleInfo []]> d)
  | None => Raise PsycopgError
  end.

(** [undo_import], app.py lines 232-256: whether the answer says success. *)
Definition undo_import (w : world) : bool * world :=
  match db_connection (λ d, d' ← truncate_table "filtered_trace_data" d; Ok ((), d')) w with
  | (Ok _, w') => (true, w')
  | (Raise _, w') => (false, w')
  end.

(** [confirm_execution], app.py lines 258-284: whether the answer says
    success. *)
Definition confirm_execution (self : processor) (w : world) : bool * world :=
  process_vehicle_data self w.

(** [str.lower()] on ASCII text. *)
Definition lower_char (c : ascii) : ascii :=
  let n := nat_of_ascii c in
  if (65 <=? n)%nat && (n <=? 90)%nat then ascii_of_nat (n + 32) else c.

Fixpoint lower (s : string) : string :=
  match s with
  | EmptyString => EmptyString
  | String c s' => String (lower_char c) (lower s')
  end.

Fixpoint has_dot (s : string) : bool :=
  match s with
  | EmptyString => false
  | String c s' => Ascii.eqb c "." || has_dot s'
  end.

(** [filename.rsplit('.', 1)[1]] of a name with a dot: what follows the
    last dot. *)
Fixpoint after_last_dot (s : string) : string :=
  match s with
  | EmptyString => EmptyString
  | String c s' =>
      if has_dot s' then after_last_dot s'
      else if Ascii.eqb c "." then s' else EmptyString
  end.

(** A text of ASCII characters, on which [lower] is [str.lower()]. *)
Fixpoint ascii_text (s : string) : bool :=
  match s with
  | EmptyString => true
  | String c s' => (nat_of_ascii c <? 128)%nat && ascii_text s'
  end.

(** [allowed_file], app.py lines 43-51. *)
Definition allowed_file (allowed_extensions : list string) (filename : string) : bool :=
  has_dot filename &&
  bool_decide (lower (after_last_dot filename) ∈ allowed_extensions).

End Web.

(** ** The table bootstrap, database/init_db.py *)

Module InitDb.

Record init_result : Type := {
  success : bool;
  created_tables : list string;
}.

(** [CREATE TABLE IF NOT EXISTS] for the two tables; the index on
    [vehicle_info(plate)] holds no rows of its own. *)
Definition create_tables (d : db) : db :=
  let d1 := match d !! "vehicle_info" with
            | Some _ => d
            | None => <["vehicle_info" := VehicleInfo []]> d
            end in
  match d1 !! "vehicle_record" with
  | Some _ => d1
  | None => <["vehicle_record" := Trace []]> d1
  end.

(** [init_postgres_db], init_db.py lines 9-111, on a connection of its own:
    the result dict and the committed state it leaves. *)
Definition init_postgres_db (up : bool) (committed_ : db) : result init_result * db :=
  if up
  then (Ok {| success := true;
              created_tables := ["vehicle_info"; "vehicle_record"]%string |},
        create_tables committed_)
  else (Raise PsycopgError, committed_).

End InitDb.

(** ** The configuration, config/config_manager.py *)

Module Config.

(** A value of the loaded JSON document. *)
#[warnings="-register-all"]
Inductive json : Type :=
| JNull
| JBool (b : bool)
| JInt (n : Z)
| JFloat (x : float)
| JString (s : string)
| JArray (items : list json)
| JObject (members : list (string * json)).

(** [key.split('.')]. *)
Fixpoint split_dots (current : string) (s : string) : list string :=
  match s with
  | EmptyString => [current]
  | String c s' =>
      if Ascii.eqb c "." then current :: split_dots EmptyString s'
      else split_dots (current +:+ String c EmptyString) s'
  end.

(** The member of an object under a name; a later pair of the same name
    replaces an earlier one, as in the dict [json.load] builds. *)
Fixpoint member (k : string) (members : list (string * json)) : option json :=
  match members with
  | [] => None
  | (k', v) :: rest =>
      match member k rest with
      | Some v' => Some v'
      | None => if decide (k' = k) then Some v else None
      end
  end.

(** [value[k]] for a text [k]; [None] stands for the [KeyError] of a
    missing member and the [TypeError] of a value that is not an object,
    which [get] catches alike. *)
Definition subscript_key (value : json) (k : string) : option json :=
  match value with
  | JObject members => member k members
  | _ => None
  end.

(** The loop of [get], lines 56-59. *)
Fixpoint descend (value : json) (keys : list string) : option json :=
  match keys with
  | [] => Some value
  | k :: rest => v ← subscript_key value k; descend v rest
  end.

(** [ConfigManager.get], config_manager.py lines 46-62. *)
Definition get (config : json) (key : string) (default_ : json) : json :=
  match descend config (split_dots EmptyString key) with
  | Some v => v
  | None => default_
  end.

End Config.

(** ** More sample data *)

Module SampleMore.

(** A session with one registered vehicle, an empty filtered relation and
    two raw rows, of which the second has an unregistered plate. *)
Definition raw_db : db :=
  {[ "vehicle_info" := VehicleInfo [Sample.ledger_row 0 0];
     "filtered_trace_data" := Trace [];
     "raw_trace_data" :=
       RawTrace [ {| raw_plate := Some "A10001"%string;
                     raw_pass_time := Some "2024/01/01 08:00"%string;
                     raw_mark := Some "K0100+000"%string |};
                  {| raw_plate := Some "Z99999"%string;
                     raw_pass_time := Some "2024/01/01 09:00"%string;
                     raw_mark := Some "K0200+000"%string |} ] ]}.

(** A conversion that maps every text to the time 1. *)
Definition clock (text : string) : option Z := Some 1.

(** A store with an empty [vehicle_info], committed and seen by the open
    connection. *)
Definition empty_fleet : db := {[ "vehicle_info" := VehicleInfo [] ]}.

Definition fleet_world : world :=
  {| server_up := true; committed := empty_fleet; conn := Some empty_fleet |}.

Definition header : list string := ["username"; "phone_num"; "plate"; "vehicle_type"].

End SampleMore.

(** * Properties *)

(** ** Route model *)

Section RouteFacts.
Import Route.
#[local] Arguments Ascii.eqb : simpl never.

Lemma digit_not_K (c : ascii) : is_digit c = true → Ascii.eqb "K" c = false.
Proof.
  destruct c as [[] [] [] [] [] [] [] []]; vm_compute; congruence.
Qed.

Lemma starts_with_refl (s : string) : starts_with s s = true.
Proof.
  induction s as [|c s IH]; [reflexivity|].
  cbn. now rewrite Ascii.eqb_refl.
Qed.

Lemma contains_refl (s : string) : contains s s = true.
Proof. destruct s; cbn; [reflexivity|]. now rewrite Ascii.eqb_refl, starts_with_refl. Qed.

(** A text made of digits and then of something without [K] has no
    occurrence of a text that starts with [K]. *)
Lemma contains_K_span (s : string) : ∀ ds r m,
  span_digits s = (ds, r) →
  contains r (String "K" m) = false →
  contains s (String "K" m) = false.
Proof.
  induction s as [|c s IH]; intros ds r m Hspan Hr; cbn in Hspan.
  - now inversion Hspan; subst.
  - destruct (is_digit c) eqn:Hc.
    + destruct (span_digits s) as [ds' r'] eqn:Hs. inversion Hspan; subst.
      cbn. rewrite (digit_not_K c Hc). cbn. eapply IH; eauto.
    + now inversion Hspan; subst.
Qed.

Lemma contains_tail_K (a b c : ascii) (m : string) :
  is_digit a = true → is_digit b = true → is_digit c = true →
  contains (String "+" (String a (String b (String c EmptyString)))) (String "K" m)
  = false.
Proof.
  intros Ha Hb Hc. cbn.
  now rewrite (digit_not_K a Ha), (digit_not_K b Hb), (digit_not_K c Hc).
Qed.

(** Two texts that end their digits with [+] and three characters: one is a
    prefix of the other only when they are equal. *)
Lemma starts_with_span (m : string) : ∀ p dm dp a b c x y z,
  span_digits m = (dm, String "+" (String a (String b (String c EmptyString)))) →
  span_digits p = (dp, String "+" (String x (String y (String z EmptyString)))) →
  starts_with p m = true → m = p.
Proof.
  induction m as [|k m IH]; intros p dm dp a b c x y z Hm Hp Hpre.
  - cbn in Hm. inversion Hm.
  - destruct p as [|k' p]; [discriminate|].
    cbn in Hpre. apply andb_prop in Hpre as [Hk Hpre].
    apply Ascii.eqb_eq in Hk. subst k'.
    cbn in Hm, Hp. destruct (is_digit k) eqn:Hd.
    + destruct (span_digits m) as [dm' rm] eqn:Em.
      destruct (span_digits p) as [dp' rp] eqn:Ep.
      inversion Hm; inversion Hp; subst.
      f_equal. eapply IH; eauto.
    + inversion Hm; inversion Hp; subst.
      cbn in Hpre.
      repeat match goal with
             | H : (_ && _)%bool = true |- _ => apply andb_prop in H as [? H]
             | H : Ascii.eqb _ _ = true |- _ => apply Ascii.eqb_eq in H; subst
             end.
      reflexivity.
Qed.

Lemma is_mark_token_inv (t : string) :
  is_mark_token t = true →
  ∃ rest ds a b c,
    t = String "K" rest ∧
    span_digits rest = (ds, String "+" (String a (String b (String c EmptyString)))) ∧
    ds ≠ EmptyString ∧
    is_digit a = true ∧ is_digit b = true ∧ is_digit c = true.
Proof.
  destruct t as [|k rest]; [discriminate|].
  destruct k as [[] [] [] [] [] [] [] []]; try discriminate.
  unfold is_mark_token.
  destruct (span_digits rest) as [ds r] eqn:E.
  destruct ds as [|d ds]; [discriminate|].
  destruct r as [|s r]; [discriminate|].
  destruct s as [[] [] [] [] [] [] [] []]; try discriminate.
  destruct r as [|a [|b [|c [|? ?]]]]; try discriminate.
  intros H. apply andb_prop in H as [H Hc]. apply andb_prop in H as [Ha Hb].
  exists rest, (String d ds), a, b, c. repeat split; auto.
Qed.

(** On mark tokens, [mark in path] is equality. *)
Lemma contains_token (p m : string) :
  is_mark_token m = true → is_mark_token p = true →
  contains p m = true ↔ m = p.
Proof.
  intros Hm Hp. split; [|intros ->; apply contains_refl].
  apply is_mark_token_inv in Hm as (m' & dm & a & b & c & -> & Em & _).
  apply is_mark_token_inv in Hp as (p' & dp & x & y & z & -> & Ep & _ & Hx & Hy & Hz).
  intros Hc. cbn in Hc. apply orb_prop in Hc as [Hc|Hc].
  - apply andb_prop in Hc as [_ Hc]. f_equal. eapply starts_with_span; eauto.
  - rewrite (contains_K_span p' dp _ m' Ep) in Hc; [discriminate|].
    now apply contains_tail_K.
Qed.

Lemma span_digits_app (s : string) : ∀ ds r,
  span_digits s = (ds, r) → s = (ds +:+ r)%string.
Proof.
  induction s as [|c s IH]; intros ds r H; cbn in H.
  - now inversion H.
  - destruct (is_digit c).
    + destruct (span_digits s) as [ds' r'] eqn:E. inversion H; subst.
      change (String c s = String c (ds' +:+ r)%string).
      f_equal. now apply IH.
    + now inversion H.
Qed.

Lemma digit_not_space (c : ascii) : is_digit c = true → is_space c = false.
Proof. destruct c as [[] [] [] [] [] [] [] []]; vm_compute; congruence. Qed.

(** Trailing white space is all [rstrip] removes. *)
Lemma rstrip_span (s : string) : ∀ ds r,
  span_digits s = (ds, r) → r ≠ EmptyString → rstrip r = r → rstrip s = s.
Proof.
  induction s as [|c s IH]; intros ds r H Hne Hr; cbn in H.
  - inversion H; subst. contradiction.
  - destruct (is_digit c) eqn:Hc.
    + destruct (span_digits s) as [ds' r'] eqn:E. inversion H; subst.
      cbn. rewrite (IH ds' r eq_refl Hne Hr).
      destruct s as [|c' s]; [|reflexivity].
      cbn in E. inversion E; subst. contradiction.
    + inversion H; subst. exact Hr.
Qed.

Lemma strip_token (t : string) : is_mark_token t = true → strip t = t.
Proof.
  intros H.
  apply is_mark_token_inv in H as (rest & ds & a & b & c & -> & E & _ & Ha & Hb & Hc).
  unfold strip. cbn [lstrip]. change (is_space "K") with false. cbn iota.
  assert (Hrest : rstrip rest = rest).
  { apply (rstrip_span rest ds _ E); [discriminate|].
    cbn. now rewrite (digit_not_space c Hc). }
  cbn [rstrip]. rewrite Hrest.
  destruct rest as [|c' rest]; [|reflexivity].
  cbn in E. inversion E.
Qed.

(** [mark_parse] on a mark token [K<km>+<mmm>]: the kilometres plus a
    thousandth of the metres, in float arithmetic. *)
Lemma mark_parse_token (t : string) :
  is_mark_token t = true →
  ∃ km mmm : string,
    t = String "K" (km +:+ String "+" mmm)%string ∧
    String.length mmm = 3%nat ∧
    mark_parse t
    = int km ≫= λ km_part,
      int mmm ≫= λ meter_part,
      float_of_int meter_part ≫= λ m,
      float_of_int km_part ≫= λ k, Ok (k + m / 1000)%float.
Proof.
  intros H. unfold mark_parse. rewrite (strip_token t H).
  apply is_mark_token_inv in H as (rest & ds & a & b & c & -> & E & Hne & Ha & Hb & Hc).
  exists ds, (String a (String b (String c EmptyString))).
  split; [f_equal; now apply span_digits_app|]. split; [reflexivity|].
  unfold match_mark. rewrite E.
  destruct ds as [|d ds]; [contradiction|].
  now rewrite Ha, Hb, Hc.
Qed.

(** The metres of a token are within the limit of [int]. *)
Lemma int_three_digits (mmm : string) :
  String.length mmm = 3%nat → int mmm = Ok (int_of_digits 0 mmm).
Proof. intros H. unfold int. now rewrite H. Qed.

Lemma int_within_limit (km : string) :
  Z.of_nat (String.length km) <= int_max_str_digits →
  int km = Ok (int_of_digits 0 km).
Proof.
  intros H. unfold int.
  destruct (Z.ltb_spec int_max_str_digits (Z.of_nat (String.length km)));
    [lia|reflexivity].
Qed.

Lemma int_beyond_limit (km : string) :
  int_max_str_digits < Z.of_nat (String.length km) → int km = Raise ValueError.
Proof.
  intros H. unfold int.
  destruct (Z.ltb_spec int_max_str_digits (Z.of_nat (String.length km)));
    [reflexivity|lia].
Qed.

(** [mark_parse] on a mark token, with the digit limit of [int] and,
    within the limit, in float arithmetic alone. *)
Lemma mark_parse_token_value (t : string) :
  is_mark_token t = true →
  ∃ km mmm : string,
    t = String "K" (km +:+ String "+" mmm)%string ∧
    mark_parse t
    = (int km ≫= λ km_part,
       int mmm ≫= λ meter_part,
       float_of_int meter_part ≫= λ m,
       float_of_int km_part ≫= λ k, Ok (k + m / 1000)%float) ∧
    (Z.of_nat (String.length km) <= int_max_str_digits →
     mark_parse t
     = float_of_int (int_of_digits 0 mmm) ≫= λ m,
       float_of_int (int_of_digits 0 km) ≫= λ k, Ok (k + m / 1000)%float) ∧
    (int_max_str_digits < Z.of_nat (String.length km) →
     mark_parse t = Raise ValueError).
Proof.
  intros H. destruct (mark_parse_token t H) as (km & mmm & Hform & Hlen & Hparse).
  exists km, mmm. split; [exact Hform|]. split; [exact Hparse|]. split.
  - intros Hkm. rewrite Hparse, (int_within_limit km Hkm), (int_three_digits mmm Hlen).
    reflexivity.
  - intros Hkm. now rewrite Hparse, (int_beyond_limit km Hkm).
Qed.

Lemma scan_first (m : string) (l : list string) : ∀ (k i : nat) (p : string),
  l !! i = Some p → contains p m = true →
  (∀ (j : nat) (q : string), (j < i)%nat → l !! j = Some q → contains q m = false) →
  scan m l k = Some (k + i)%nat.
Proof.
  induction l as [|x l IH]; intros k i p Hi Hp Hbefore; [discriminate|].
  destruct i as [|i]; cbn in *.
  - inversion Hi; subst. rewrite Hp. now rewrite Nat.add_0_r.
  - rewrite (Hbefore 0%nat x); [|lia|reflexivity].
    rewrite (IH (S k) i p Hi Hp).
    + now rewrite Nat.add_succ_r.
    + intros j q Hj Hq. apply (Hbefore (S j)); [lia|exact Hq].
Qed.

Lemma scan_absent (m : string) (l : list string) : ∀ k : nat,
  (∀ q : string, q ∈ l → contains q m = false) → scan m l k = None.
Proof.
  induction l as [|x l IH]; intros k H; [reflexivity|].
  cbn. rewrite (H x); [|left]. apply IH. intros q Hq. apply H. now right.
Qed.

(** Among mark tokens, only the token itself contains the token. *)
Lemma other_token_misses (direction : list string) (m q : string) :
  is_mark_token m = true →
  Forall (λ t, is_mark_token t = true) direction →
  q ∈ direction → q ≠ m → contains q m = false.
Proof.
  intros Hm Hall Hq Hne.
  destruct (contains q m) eqn:E; [|reflexivity].
  rewrite Forall_forall in Hall.
  apply contains_token in E; auto. congruence.
Qed.

(** What [mileage_diff] computes from the two parsed distances. *)
Lemma mileage_diff_parsed (a b : string) (da db : float) :
  mark_parse a = Ok da → mark_parse b = Ok db →
  mileage_diff a b = Ok (abs (da - db) / 1000)%float.
Proof. intros Ha Hb. unfold mileage_diff. now rewrite Ha, Hb. Qed.

End RouteFacts.

Section RouteClaims.
Import Route.

(** C2 (the code where it departs from the claim). [mark_parse] of a mark
    token [K<km>+<mmm>] is [km + mmm / 1000] ([ValueError] when [km] has more
    digits than [int] converts), and [mileage_diff] of two
    marks that parse is the absolute difference of the two distances divided
    by 1000 once more: for [K0100+000] and [K0001+000], which parse to 100
    and 1, it returns 99/1000 and not 99. *)
Theorem mileage_diff_divides_again :
  (∀ t : string,
     is_mark_token t = true →
     ∃ km mmm : string,
       t = String "K" (km +:+ String "+" mmm)%string ∧
       mark_parse t
       = (int km ≫= λ km_part,
          int mmm ≫= λ meter_part,
          float_of_int meter_part ≫= λ m,
          float_of_int km_part ≫= λ k, Ok (k + m / 1000)%float) ∧
       (Z.of_nat (String.length km) <= int_max_str_digits →
        mark_parse t
        = float_of_int (int_of_digits 0 mmm) ≫= λ m,
          float_of_int (int_of_digits 0 km) ≫= λ k, Ok (k + m / 1000)%float) ∧
       (int_max_str_digits < Z.of_nat (String.length km) →
        mark_parse t = Raise ValueError)) ∧
  (∀ (a b : string) (da db : float),
     mark_parse a = Ok da → mark_parse b = Ok db →
     mileage_diff a b = Ok (abs (da - db) / 1000)%float) ∧
  mark_parse "K0100+000" = Ok 100%float ∧
  mark_parse "K0001+000" = Ok 1%float ∧
  mileage_diff "K0100+000" "K0001+000" = Ok (99 / 1000)%float ∧
  (99 / 1000)%float ≠ abs (100 - 1)%float.
Proof.
  split; [exact mark_parse_token_value|]. split; [exact mileage_diff_parsed|].
  split; [|split; [|split]]; try (vm_compute; reflexivity).
  intros H. apply (f_equal (PrimFloat.ltb 1)) in H. vm_compute in H. discriminate.
Qed.

(** C3. For marks that have positions, [is_continuous a b] returns true
    exactly when the position of [a] minus the position of [b] is 1, and
    then [is_continuous b a] returns false. *)
Theorem is_continuous_one_step (standard_path : list (list string))
    (a b : string) (ia ib : Z) :
  path_index standard_path (Some a) = Ok ia →
  path_index standard_path (Some b) = Ok ib →
  (is_continuous standard_path a b = Ok true ↔ ia - ib = 1) ∧
  (is_continuous standard_path a b = Ok false ↔ ia - ib ≠ 1) ∧
  (is_continuous standard_path a b = Ok true →
   is_continuous standard_path b a = Ok false).
Proof.
  intros Ha Hb. unfold is_continuous. rewrite Ha, Hb. cbn.
  destruct (Z.eqb_spec (ia - ib) 1) as [E|E];
    destruct (Z.eqb_spec (ib - ia) 1) as [E'|E'];
    repeat split; intros; try congruence; try lia.
Qed.

Lemma is_continuous_one_step_witness :
  is_continuous default_standard_path "K0100+000" "K0001+000" = Ok true ∧
  is_continuous default_standard_path "K0001+000" "K0100+000" = Ok false.
Proof.
  destruct (is_continuous_one_step default_standard_path
              "K0100+000" "K0001+000" 1 0 eq_refl eq_refl) as (H1 & _ & H3).
  split; [apply H1; reflexivity | apply H3, H1; reflexivity].
Defined.

(** C4. On a route of mark tokens, [path_index] of a mark token is the index
    of its first occurrence in the outbound sequence; when the outbound
    sequence does not hold it, the index of its first occurrence in the
    inbound sequence plus 10000; and [ValueError] when neither sequence
    holds it. A token repeated in a direction has the position of its first
    occurrence. *)
Theorem path_index_first_match (outbound inbound : list string)
    (more : list (list string)) (m : string) :
  is_mark_token m = true →
  Forall (λ t, is_mark_token t = true) outbound →
  Forall (λ t, is_mark_token t = true) inbound →
  (∀ i : nat,
      outbound !! i = Some m →
      (∀ j : nat, (j < i)%nat → outbound !! j ≠ Some m) →
      path_index (outbound :: inbound :: more) (Some m) = Ok (Z.of_nat i)) ∧
  (∀ i : nat,
      m ∉ outbound →
      inbound !! i = Some m →
      (∀ j : nat, (j < i)%nat → inbound !! j ≠ Some m) →
      path_index (outbound :: inbound :: more) (Some m) = Ok (Z.of_nat i + 10000)) ∧
  (m ∉ outbound → m ∉ inbound →
      path_index (outbound :: inbound :: more) (Some m) = Raise ValueError).
Proof.
  intros Hm Hout Hin.
  assert (Hfirst : ∀ (l : list string) (i : nat),
             Forall (λ t, is_mark_token t = true) l →
             l !! i = Some m →
             (∀ j : nat, (j < i)%nat → l !! j ≠ Some m) →
             scan m l 0 = Some i).
  { intros l i Hl Hi Hbefore.
    rewrite (scan_first m l 0 i m Hi (contains_refl m)); [reflexivity|].
    intros j q Hj Hq. apply (other_token_misses l); auto.
    - eapply list_elem_of_lookup_2; eauto.
    - intros ->. exact (Hbefore j Hj Hq). }
  assert (Hnone : ∀ l : list string,
             Forall (λ t, is_mark_token t = true) l → m ∉ l → scan m l 0 = None).
  { intros l Hl Hnot. apply scan_absent. intros q Hq.
    apply (other_token_misses l); auto. intros ->. contradiction. }
  unfold path_index, subscript. cbn. repeat split.
  - intros i Hi Hbefore. now rewrite (Hfirst outbound i).
  - intros i Hnot Hi Hbefore. now rewrite (Hnone outbound), (Hfirst inbound i).
  - intros Hnot1 Hnot2. now rewrite (Hnone outbound), (Hnone inbound).
Qed.

Lemma path_index_first_match_witness :
  path_index default_standard_path (Some "K0100+300"%string) = Ok 10001 ∧
  path_index default_standard_path (Some "K0200+000"%string) = Ok 2 ∧
  path_index default_standard_path (Some "K0500+000"%string) = Raise ValueError.
Proof.
  split; [|split].
  - refine (proj1 (proj2 (path_index_first_match
      ["K0001+000"; "K0100+000"; "K0200+000"; "K0300+000"]%string
      ["K0001+300"; "K0100+300"; "K0100+300"; "K0100+300"]%string
      [] "K0100+300" eq_refl _ _)) 1%nat _ eq_refl _).
    + repeat constructor.
    + repeat constructor.
    + intros H. repeat (apply elem_of_cons in H as [H|H]; [discriminate|]).
      inversion H.
    + intros j Hj. assert (j = 0%nat) as -> by lia. discriminate.
  - refine (proj1 (path_index_first_match
      ["K0001+000"; "K0100+000"; "K0200+000"; "K0300+000"]%string
      ["K0001+300"; "K0100+300"; "K0100+300"; "K0100+300"]%string
      [] "K0200+000" eq_refl _ _) 2%nat eq_refl _).
    + repeat constructor.
    + repeat constructor.
    + intros j Hj. destruct j as [|[|j]]; [discriminate|discriminate|lia].
  - refine (proj2 (proj2 (path_index_first_match
      ["K0001+000"; "K0100+000"; "K0200+000"; "K0300+000"]%string
      ["K0001+300"; "K0100+300"; "K0100+300"; "K0100+300"]%string
      [] "K0500+000" eq_refl _ _)) _ _).
    + repeat constructor.
    + repeat constructor.
    + intros H. repeat (apply elem_of_cons in H as [H|H]; [discriminate|]).
      inversion H.
    + intros H. repeat (apply elem_of_cons in H as [H|H]; [discriminate|]).
      inversion H.
Defined.

End RouteClaims.

(** ** The rows a task is given *)

Section TaskRows.
Import Client Processor.

Lemma pass_time_leb_trans (a b c : option Z) :
  pass_time_leb a b = true → pass_time_leb b c = true → pass_time_leb a c = true.
Proof.
  destruct a, b, c; cbn; try congruence; rewrite !Z.leb_le; lia.
Qed.

Lemma pass_time_leb_total (a b : option Z) :
  pass_time_leb a b = true ∨ pass_time_leb b a = true.
Proof. destruct a, b; cbn; auto; rewrite !Z.leb_le; lia. Qed.

Lemma plate_lt_irrefl (a : string) : ¬ String_as_OT.lt a a.
Proof. exact (@StrictOrder_Irreflexive _ _ String_as_OT.lt_strorder a). Qed.

Lemma plate_lt_trans (a b c : string) :
  String_as_OT.lt a b → String_as_OT.lt b c → String_as_OT.lt a c.
Proof. exact (@StrictOrder_Transitive _ _ String_as_OT.lt_strorder a b c). Qed.

Lemma plate_lt_asym (a b : string) :
  String_as_OT.lt a b → String_as_OT.lt b a → False.
Proof. intros H1 H2. exact (plate_lt_irrefl a (plate_lt_trans a b a H1 H2)). Qed.

Lemma plate_lt_cycle (a b c : string) :
  String_as_OT.lt a b → String_as_OT.lt b c → String_as_OT.lt c a → False.
Proof.
  intros H1 H2 H3.
  exact (plate_lt_asym a c (plate_lt_trans a b c H1 H2) H3).
Qed.

Ltac plate_order :=
  solve [ reflexivity | discriminate
        | exfalso; eauto using plate_lt_irrefl, plate_lt_asym, plate_lt_cycle ].

#[local] Instance record_le_trans : Transitive record_le.
Proof.
  intros x y z. unfold record_le, record_leb.
  generalize (pass_time x) (pass_time y) (pass_time z) (plate x) (plate y) (plate z).
  intros tx ty tz a b c.
  destruct (String_as_OT.compare_spec a b) as [Exy|Lxy|Gxy];
    destruct (String_as_OT.compare_spec b c) as [Eyz|Lyz|Gyz];
    destruct (String_as_OT.compare_spec a c) as [Exz|Lxz|Gxz];
    unfold String_as_OT.eq in *; subst; intros Hxy Hyz; try plate_order.
  eapply pass_time_leb_trans; eauto.
Qed.

#[local] Instance record_le_total : Total record_le.
Proof.
  intros x y. unfold record_le, record_leb.
  generalize (pass_time x) (pass_time y) (plate x) (plate y). intros tx ty a b.
  destruct (String_as_OT.compare_spec a b) as [E|L|G];
    destruct (String_as_OT.compare_spec b a) as [E'|L'|G'];
    unfold String_as_OT.eq in *; subst; auto; try plate_order.
  apply pass_time_leb_total.
Qed.

Lemma record_le_same_plate (x y : record) :
  plate x = plate y → record_le x y →
  pass_time_leb (pass_time x) (pass_time y) = true.
Proof.
  unfold record_le, record_leb. intros ->.
  destruct (String_as_OT.compare_spec (plate y) (plate y)) as [_|L|L]; auto;
    now apply plate_lt_irrefl in L.
Qed.

Lemma StronglySorted_filter {A} (R : relation A) (P : A → Prop)
    `{∀ x, Decision (P x)} (l : list A) :
  StronglySorted R l → StronglySorted R (filter P l).
Proof.
  induction 1 as [|x l Hl IH Hx]; [constructor|].
  rewrite filter_cons. destruct (decide (P x)); [|exact IH].
  constructor; [exact IH|].
  rewrite Forall_forall in *. intros y Hy.
  apply Hx. now apply (proj1 (list_elem_of_filter _ _ _)) in Hy as [_ Hy].
Qed.

(** The dict of groups as a finite map. *)
Lemma group_append_map (r : record) (groups : list (string * list record)) :
  (list_to_map (group_append r groups) : gmap string (list record))
  = <[plate r :=
        default [] ((list_to_map groups : gmap string (list record)) !! plate r)
        ++ [r]]>
      (list_to_map groups).
Proof.
  induction groups as [|[p rs] groups IH]; cbn [group_append].
  - reflexivity.
  - destruct (decide (p = plate r)) as [->|Hne]; cbn [list_to_map foldr fst snd].
    + rewrite lookup_insert_eq. cbn. now rewrite insert_insert_eq.
    + rewrite IH, lookup_insert_ne by exact Hne.
      now rewrite insert_insert_ne by exact Hne.
Qed.

Lemma group_append_keys (r : record) (groups : list (string * list record)) :
  NoDup groups.*1 → NoDup (group_append r groups).*1 ∧
  ∀ p : string, p ∈ (group_append r groups).*1 → p = plate r ∨ p ∈ groups.*1.
Proof.
  induction groups as [|[p rs] groups IH]; cbn [group_append]; intros Hnd.
  - split; [repeat constructor; inversion 1|].
    intros q Hq. apply list_elem_of_singleton in Hq. auto.
  - destruct (decide (p = plate r)) as [->|Hne].
    + split; [exact Hnd|]. intros q Hq. now right.
    + cbn in Hnd. apply NoDup_cons in Hnd as [Hp Hnd].
      destruct (IH Hnd) as [IH1 IH2]. split.
      * cbn. apply NoDup_cons. split; [|exact IH1].
        intros Hin. destruct (IH2 p Hin); [congruence|contradiction].
      * intros q Hq. cbn in Hq. apply elem_of_cons in Hq as [->|Hq].
        -- right. left.
        -- destruct (IH2 q Hq); [now left|right; now right].
Qed.

Lemma plate_groups_snoc (l : list record) (r : record) :
  plate_groups (l ++ [r]) = group_append r (plate_groups l).
Proof. unfold plate_groups. now rewrite fold_left_app. Qed.

Lemma plate_groups_NoDup (l : list record) : NoDup (plate_groups l).*1.
Proof.
  induction l as [|r l IH] using rev_ind; [constructor|].
  rewrite plate_groups_snoc. now apply group_append_keys.
Qed.

Lemma plate_groups_lookup (l : list record) (p : string) :
  default [] ((list_to_map (plate_groups l) : gmap string (list record)) !! p)
  = filter (λ r, plate r = p) l.
Proof.
  induction l as [|r l IH] using rev_ind; [reflexivity|].
  rewrite plate_groups_snoc, group_append_map, filter_app.
  destruct (decide (plate r = p)) as [<-|Hne].
  - rewrite (filter_cons_True (λ r', plate r' = plate r)) by reflexivity.
    rewrite filter_nil, lookup_insert_eq. cbn [default from_option id].
    now rewrite IH.
  - rewrite (filter_cons_False (λ r', plate r' = p)) by exact Hne.
    rewrite filter_nil, app_nil_r, lookup_insert_ne by exact Hne.
    exact IH.
Qed.

(** Each task gets the rows of its plate, in the order of the SELECT. *)
Lemma plate_groups_elem (l : list record) (p : string) (rs : list record) :
  (p, rs) ∈ plate_groups l → rs = filter (λ r, plate r = p) l.
Proof.
  intros Hin. rewrite <- plate_groups_lookup.
  apply (elem_of_list_to_map (M := gmap string)) in Hin;
    [|apply plate_groups_NoDup].
  now rewrite Hin.
Qed.

(** The rows of one plate in an ordered SELECT ascend in time. *)
Lemma ordered_group_ascends (rows : list record) (p : string) :
  StronglySorted (λ a b, pass_time_leb (pass_time a) (pass_time b) = true)
    (filter (λ r, plate r = p) (merge_sort record_le rows)).
Proof.
  assert (Hs : StronglySorted record_le
                 (filter (λ r, plate r = p) (merge_sort record_le rows))).
  { apply StronglySorted_filter, StronglySorted_merge_sort; apply _. }
  set (l := filter (λ r, plate r = p) (merge_sort record_le rows)) in *.
  assert (Hp : Forall (λ r, plate r = p) l).
  { apply Forall_forall. intros r Hr.
    now apply (proj1 (list_elem_of_filter _ _ _)) in Hr as [Hr _]. }
  clearbody l. induction Hs as [|x l Hl IH Hx]; [constructor|].
  inversion Hp as [|? ? Hpx Hpl]; subst.
  constructor; [now apply IH|].
  rewrite Forall_forall in *. intros y Hy.
  apply record_le_same_plate; [|now apply Hx].
  now rewrite (Hpl y Hy).
Qed.

End TaskRows.

(** ** The per-vehicle fold *)

Section FoldClaims.
Import Route Fold Client Processor.
#[local] Arguments is_continuous : simpl never.
#[local] Arguments mileage_diff : simpl never.

Lemma fold_records_app (standard_path : list (list string)) (l1 l2 : list record) :
  ∀ st, fold_records standard_path st (l1 ++ l2)
        = fold_records standard_path st l1 ≫= λ st', fold_records standard_path st' l2.
Proof.
  induction l1 as [|r l1 IH]; intros st; cbn; [reflexivity|].
  destruct (process_record standard_path st r); cbn; [apply IH|reflexivity].
Qed.

Lemma fresh_stale (st : fold_state) (r : record) : fresh st r → stale st r = Ok false.
Proof.
  unfold stale. intros [->|(t & p & -> & -> & Hle)]; [reflexivity|].
  f_equal. lia.
Qed.

Lemma process_record_stale (standard_path : list (list string))
    (st : fold_state) (r : record) (t p : Z) :
  last_record_time st = Some t → pass_time r = Some p → p < t →
  process_record standard_path st r = Ok st.
Proof.
  intros Ht Hp Hlt. unfold process_record, stale. rewrite Ht, Hp. cbn.
  now rewrite (proj2 (Z.ltb_lt p t) Hlt).
Qed.

Lemma process_record_continuous (standard_path : list (list string))
    (st : fold_state) (r : record) (m lr : string) (d : float) :
  fresh st r → mark r = Some m → last_record st = Some lr →
  is_continuous standard_path m lr = Ok true → mileage_diff m lr = Ok d →
  process_record standard_path st r
  = Ok {| last_record := mark r; last_record_time := pass_time r;
          mileage := (mileage st + d)%float |}.
Proof.
  intros Hf Hm Hlr Hc Hd. unfold process_record.
  rewrite (fresh_stale st r Hf), Hm, Hlr, Hc. cbn. now rewrite Hd.
Qed.

Lemma process_record_reset (standard_path : list (list string))
    (st : fold_state) (r : record) (m lr : string) :
  fresh st r → mark r = Some m → last_record st = Some lr →
  is_continuous standard_path m lr = Ok false →
  process_record standard_path st r
  = Ok {| last_record := mark r; last_record_time := pass_time r;
          mileage := mileage st |}.
Proof.
  intros Hf Hm Hlr Hc. unfold process_record.
  now rewrite (fresh_stale st r Hf), Hm, Hlr, Hc.
Qed.

Lemma process_record_absent (standard_path : list (list string))
    (st : fold_state) (r : record) :
  fresh st r → mark r = None ∨ last_record st = None →
  process_record standard_path st r
  = Ok {| last_record := mark r; last_record_time := pass_time r;
          mileage := mileage st |}.
Proof.
  intros Hf [Hm|Hlr]; unfold process_record; rewrite (fresh_stale st r Hf).
  - now rewrite Hm.
  - rewrite Hlr. now destruct (mark r).
Qed.

Lemma process_record_raises (standard_path : list (list string))
    (st : fold_state) (r : record) (m lr : string) (e : exn) :
  fresh st r → mark r = Some m → last_record st = Some lr →
  is_continuous standard_path m lr = Raise e ∨
  (is_continuous standard_path m lr = Ok true ∧ mileage_diff m lr = Raise e) →
  process_record standard_path st r = Raise e.
Proof.
  intros Hf Hm Hlr [Hc|[Hc Hd]]; unfold process_record;
    rewrite (fresh_stale st r Hf), Hm, Hlr, Hc; cbn;
    [reflexivity | now rewrite Hd].
Qed.

(** C1, as the claim states it, fails: with the ledger at [K0001+000] and a
    later event at [K0500+000], a mark with no route position, the claim
    has the event advance the state with no mileage added; the code raises
    [ValueError] and the fold ends there. *)
Lemma process_record_off_route :
  stale Sample.at_start (Sample.pass "K0500+000" 1) = Ok false ∧
  process_record default_standard_path Sample.at_start (Sample.pass "K0500+000" 1)
    = Raise ValueError ∧
  process_record default_standard_path Sample.at_start (Sample.pass "K0500+000" 1)
    ≠ Ok {| last_record := Some "K0500+000"%string;
            last_record_time := Some 1;
            mileage := mileage Sample.at_start |}.
Proof. repeat split; try (vm_compute; reflexivity). vm_compute. discriminate. Qed.

(** C1, amended. The fold walks the records in list order from the state
    loaded from the ledger row. An event strictly earlier than a set
    [last_record_time] leaves the state unchanged. A fresh event sets
    [last_record] and [last_record_time] to its mark and time, and adds
    [mileage_diff mark last_record] exactly when both marks are present and
    [is_continuous mark last_record] returns true, nothing otherwise; this
    when the route lookups return. When [is_continuous] raises (a mark has
    no route position) or [mileage_diff] raises (a mark does not parse), the
    fold raises the same exception; an event without a time against a set
    [last_record_time] raises [TypeError]. *)
Theorem process_record_cases (standard_path : list (list string))
    (st : fold_state) (r : record) :
  (∀ t p : Z, last_record_time st = Some t → pass_time r = Some p → p < t →
     process_record standard_path st r = Ok st) ∧
  (∀ (m lr : string) (d : float),
     fresh st r → mark r = Some m → last_record st = Some lr →
     is_continuous standard_path m lr = Ok true → mileage_diff m lr = Ok d →
     process_record standard_path st r
     = Ok {| last_record := mark r; last_record_time := pass_time r;
             mileage := (mileage st + d)%float |}) ∧
  (∀ m lr : string,
     fresh st r → mark r = Some m → last_record st = Some lr →
     is_continuous standard_path m lr = Ok false →
     process_record standard_path st r
     = Ok {| last_record := mark r; last_record_time := pass_time r;
             mileage := mileage st |}) ∧
  (fresh st r → mark r = None ∨ last_record st = None →
     process_record standard_path st r
     = Ok {| last_record := mark r; last_record_time := pass_time r;
             mileage := mileage st |}) ∧
  (∀ (m lr : string) (e : exn),
     fresh st r → mark r = Some m → last_record st = Some lr →
     is_continuous standard_path m lr = Raise e ∨
     (is_continuous standard_path m lr = Ok true ∧ mileage_diff m lr = Raise e) →
     process_record standard_path st r = Raise e) ∧
  (∀ t : Z, last_record_time st = Some t → pass_time r = None →
     process_record standard_path st r = Raise TypeError) ∧
  (∀ rest : list record,
     fold_records standard_path st (r :: rest)
     = process_record standard_path st r ≫= λ st', fold_records standard_path st' rest) ∧
  (∀ (p : string) (records : list record) (session : db)
     (row : vehicle_info_row) (others : list vehicle_info_row),
     select_vehicle_info p session = Ok (row :: others) →
     plate_task_body standard_path p records session
     = fold_records standard_path (loaded row) records ≫= λ st',
       update_vehicle_info p (last_record st') (last_record_time st') (mileage st')
         (mileage st' * vi_bonus row)%float session ≫= λ session', Ok (true, session')) ∧
  (∀ (d : db) (staging_data : list record) (p : string) (records : list record),
     select_ordered "staging_table" d = Ok staging_data →
     (p, records) ∈ plate_groups staging_data →
     records = filter (λ r', plate r' = p) staging_data ∧
     StronglySorted (λ a b, pass_time_leb (pass_time a) (pass_time b) = true) records).
Proof.
  split; [|split; [|split; [|split; [|split; [|split; [|split; [|split]]]]]]];
    [| | | | | | reflexivity | |].
  - apply process_record_stale.
  - apply process_record_continuous.
  - apply process_record_reset.
  - apply process_record_absent.
  - apply process_record_raises.
  - intros t Ht Hp. unfold process_record, stale. now rewrite Ht, Hp.
  - intros p records session row others Hsel. unfold plate_task_body.
    now rewrite Hsel.
  - intros d staging_data p records Hsel Hin. unfold select_ordered in Hsel.
    destruct (d !! "staging_table") as [[| rows |]|]; try discriminate.
    injection Hsel as <-.
    rewrite (plate_groups_elem _ p records Hin).
    split; [reflexivity | apply ordered_group_ascends].
Qed.

Lemma process_record_cases_witness :
  process_record default_standard_path Sample.at_start (Sample.pass "K0100+000" 1)
  = Ok {| last_record := Some "K0100+000"%string; last_record_time := Some 1;
          mileage := (0 + 99 / 1000)%float |} ∧
  process_record default_standard_path Sample.at_start (Sample.pass "K0300+000" 1)
  = Ok {| last_record := Some "K0300+000"%string; last_record_time := Some 1;
          mileage := 0%float |} ∧
  process_record default_standard_path Sample.at_start (Sample.pass "K0100+000" (-1))
  = Ok Sample.at_start ∧
  process_record default_standard_path Sample.at_start (Sample.pass "K0500+000" 1)
  = Raise ValueError.
Proof.
  pose proof (process_record_cases default_standard_path Sample.at_start) as H.
  assert (Hfresh : ∀ m, fresh Sample.at_start (Sample.pass m 1)).
  { intros m. right. exists 0, 1. repeat split. lia. }
  split; [|split; [|split]].
  - destruct (H (Sample.pass "K0100+000" 1)) as (_ & H2 & _).
    apply (H2 "K0100+000"%string "K0001+000"%string (99 / 1000)%float);
      auto; vm_compute; reflexivity.
  - destruct (H (Sample.pass "K0300+000" 1)) as (_ & _ & H3 & _).
    apply (H3 "K0300+000"%string "K0001+000"%string); auto; vm_compute; reflexivity.
  - destruct (H (Sample.pass "K0100+000" (-1))) as (H1 & _).
    apply (H1 0 (-1)); [reflexivity | reflexivity | lia].
  - destruct (H (Sample.pass "K0500+000" 1)) as (_ & _ & _ & _ & H5 & _).
    apply (H5 "K0500+000"%string "K0001+000"%string ValueError);
      [apply Hfresh | reflexivity | reflexivity | left; vm_compute; reflexivity].
Defined.

(** *** The ledger update *)

Lemma filter_plate_set_ledger (p : string) (lr : option string) (lrt : option Z)
    (m pts : float) (rows : list vehicle_info_row) :
  filter (λ row, vi_plate row = p)
    ((λ row, if decide (vi_plate row = p) then set_ledger lr lrt m pts row else row)
       <$> rows)
  = set_ledger lr lrt m pts <$> filter (λ row, vi_plate row = p) rows.
Proof.
  induction rows as [|row rows IH]; [reflexivity|].
  rewrite fmap_cons, !filter_cons, IH.
  destruct (decide (vi_plate row = p)) as [E|E]; cbn.
  - now rewrite decide_True by exact E.
  - now rewrite decide_False by exact E.
Qed.





(** *** The order of the input *)

Lemma is_continuous_known (standard_path : list (list string)) (a b : string) :
  known standard_path a → known standard_path b →
  ∃ c : bool, is_continuous standard_path a b = Ok c.
Proof.
  intros [Ha _] [Hb _]. unfold is_continuous.
  destruct (path_index standard_path (Some a)); [|discriminate].
  destruct (path_index standard_path (Some b)); [|discriminate].
  cbn. eauto.
Qed.

Lemma mileage_diff_known (standard_path : list (list string)) (a b : string) :
  known standard_path a → known standard_path b →
  ∃ d : float, mileage_diff a b = Ok d.
Proof.
  intros [_ Ha] [_ Hb]. unfold mileage_diff.
  destruct (mark_parse a); [|discriminate].
  destruct (mark_parse b); [|discriminate].
  cbn. eauto.
Qed.

(** One step on an event with a time and known marks: it returns, the marks
    stay known, and the time moves to the later of the two. *)
Lemma process_record_known (standard_path : list (list string))
    (st : fold_state) (r : record) :
  (∀ lr : string, last_record st = Some lr → known standard_path lr) →
  timed_known standard_path r →
  ∃ s : fold_state,
    process_record standard_path st r = Ok s ∧
    last_record_time s = advance_time (last_record_time st) r ∧
    (∀ lr : string, last_record s = Some lr → known standard_path lr).
Proof.
  intros Hst [[p Hp] Hr].
  assert (Hmark : ∀ m lr : string, mark r = Some m → Some m = Some lr →
                                  known standard_path lr).
  { intros m lr Hm E. inversion E; subst. now apply Hr. }
  unfold process_record, stale, advance_time. rewrite Hp.
  destruct (last_record_time st) as [t|] eqn:Ht; cbn;
    [destruct (Z.ltb_spec p t) as [Hlt|Hle]|].
  - exists st. split; [reflexivity|]. split; [|exact Hst].
    rewrite Ht. f_equal. lia.
  - destruct (mark r) as [m|] eqn:Hm; [destruct (last_record st) as [lr|] eqn:Hlr|].
    + destruct (is_continuous_known standard_path m lr) as [c Hc]; auto.
      rewrite Hc. cbn. destruct c; cbn.
      * destruct (mileage_diff_known standard_path m lr) as [d Hd]; auto.
        rewrite Hd. cbn. eexists. split; [reflexivity|]. cbn.
        split; [f_equal; lia | eauto].
      * eexists. split; [reflexivity|]. cbn. split; [f_equal; lia | eauto].
    + eexists. split; [reflexivity|]. cbn. split; [f_equal; lia | eauto].
    + eexists. split; [reflexivity|]. cbn. split; [f_equal; lia | discriminate].
  - destruct (mark r) as [m|] eqn:Hm; [destruct (last_record st) as [lr|] eqn:Hlr|].
    + destruct (is_continuous_known standard_path m lr) as [c Hc]; auto.
      rewrite Hc. cbn. destruct c; cbn.
      * destruct (mileage_diff_known standard_path m lr) as [d Hd]; auto.
        rewrite Hd. cbn. eexists. split; [reflexivity|]. cbn.
        split; [reflexivity | eauto].
      * eexists. split; [reflexivity|]. cbn. split; [reflexivity | eauto].
    + eexists. split; [reflexivity|]. cbn. split; [reflexivity | eauto].
    + eexists. split; [reflexivity|]. cbn. split; [reflexivity | discriminate].
Qed.

Lemma fold_records_latest (standard_path : list (list string)) (l : list record) :
  ∀ st : fold_state,
    (∀ lr : string, last_record st = Some lr → known standard_path lr) →
    Forall (timed_known standard_path) l →
    ∃ s : fold_state,
      fold_records standard_path st l = Ok s ∧
      last_record_time s = latest (last_record_time st) l.
Proof.
  induction l as [|r l IH]; intros st Hst Hl.
  - exists st. split; reflexivity.
  - inversion Hl as [|? ? Hr Hl']; subst.
    destruct (process_record_known standard_path st r Hst Hr) as (s1 & H1 & Ht & Hk).
    destruct (IH s1 Hk Hl') as (s & Hs & Hlast).
    exists s. cbn [fold_records]. rewrite H1. cbn. split; [exact Hs|].
    rewrite Hlast, Ht. reflexivity.
Qed.

Lemma advance_time_comm (t : option Z) (x y : record) :
  advance_time (advance_time t x) y = advance_time (advance_time t y) x.
Proof.
  unfold advance_time.
  destruct t as [t|], (pass_time x) as [a|], (pass_time y) as [b|];
    cbn; try reflexivity; f_equal; lia.
Qed.

Lemma latest_Permutation (l l' : list record) :
  l ≡ₚ l' → ∀ t : option Z, latest t l = latest t l'.
Proof.
  unfold latest. induction 1 as [|x l l' _ IH|x y l|l l' l'' _ IH1 _ IH2];
    intros t; cbn.
  - reflexivity.
  - apply IH.
  - now rewrite advance_time_comm.
  - now rewrite IH1.
Qed.

Lemma sorted_out_of_order :
  merge_sort record_le Sample.out_of_order
  = [Sample.pass "K0100+000" 1; Sample.pass "K0200+000" 2].
Proof. vm_compute. reflexivity. Qed.

Lemma pass_timed_known (standard_path : list (list string)) (m : string) (t : Z) :
  known standard_path m → timed_known standard_path (Sample.pass m t).
Proof.
  intros Hm. split; [eexists; reflexivity|].
  intros m' E. inversion E; subst. exact Hm.
Qed.

Lemma process_record_position (standard_path : list (list string))
    (st s : fold_state) (r : record) :
  process_record standard_path st r = Ok s →
  (stale st r = Ok true ∧ s = st) ∨
  (stale st r = Ok false ∧ last_record s = mark r ∧ last_record_time s = pass_time r).
Proof.
  unfold process_record. destruct (stale st r) as [[|]|e] eqn:Hstale; cbn.
  - intros [= <-]. now left.
  - intros H. right. split; [reflexivity|].
    destruct (mark r) as [m|], (last_record st) as [lr|]; cbn in H;
      try (injection H as <-; now split).
    destruct (is_continuous standard_path m lr) as [[|]|e]; cbn in H;
      try discriminate; try (injection H as <-; now split).
    destruct (mileage_diff m lr) as [d|e]; cbn in H; [|discriminate].
    injection H as <-. now split.
  - discriminate.
Qed.

Lemma stale_false_time (st : fold_state) (r : record) (t : Z) :
  stale st r = Ok false → last_record_time st = Some t →
  ∃ p : Z, pass_time r = Some p ∧ t <= p.
Proof.
  unfold stale. intros H Ht. rewrite Ht in H.
  destruct (pass_time r) as [p|]; [|discriminate].
  exists p. split; [reflexivity|].
  assert (Hlt : (p <? t) = false) by congruence.
  apply Z.ltb_ge in Hlt. exact Hlt.
Qed.

Lemma stale_true_time (st : fold_state) (r : record) :
  stale st r = Ok true →
  ∃ t p : Z, last_record_time st = Some t ∧ pass_time r = Some p ∧ p < t.
Proof.
  unfold stale. destruct (last_record_time st) as [t|]; [|discriminate].
  destruct (pass_time r) as [p|]; [|discriminate].
  intros H. exists t, p. split; [reflexivity|]. split; [reflexivity|].
  assert (Hlt : (p <? t) = true) by congruence.
  now apply Z.ltb_lt.
Qed.

(** Whenever an iteration returns, the ledger time moves to the later of
    the two times. *)
Lemma process_record_time (standard_path : list (list string))
    (st s : fold_state) (r : record) :
  process_record standard_path st r = Ok s →
  last_record_time s = advance_time (last_record_time st) r.
Proof.
  intros Hstep. unfold advance_time.
  destruct (process_record_position _ _ _ _ Hstep) as [[Hstale ->]|(Hstale & _ & Ht)].
  - destruct (stale_true_time st r Hstale) as (t & p & -> & -> & Hlt).
    f_equal. lia.
  - rewrite Ht. destruct (last_record_time st) as [t|] eqn:Hst; [|reflexivity].
    destruct (stale_false_time st r t Hstale Hst) as (p & -> & Hle).
    f_equal. lia.
Qed.

Lemma fold_records_time (standard_path : list (list string)) (l : list record) :
  ∀ st s : fold_state,
    fold_records standard_path st l = Ok s →
    last_record_time s = latest (last_record_time st) l.
Proof.
  induction l as [|r l IH]; intros st s H; cbn in H.
  - now injection H as <-.
  - destruct (process_record standard_path st r) as [s1|e] eqn:Hstep;
      [|discriminate].
    change (fold_records standard_path s1 l = Ok s) in H.
    rewrite (IH s1 s H), (process_record_time _ _ _ _ Hstep). reflexivity.
Qed.

(** Where the final position comes from: every event was skipped and the
    state is the one the fold started with, or it is the position of an
    event of the batch. *)
Lemma fold_records_origin (standard_path : list (list string)) (l : list record) :
  ∀ st s : fold_state,
    fold_records standard_path st l = Ok s →
    (s = st ∧
     Forall (λ r, ∃ t p : Z,
                last_record_time st = Some t ∧ pass_time r = Some p ∧ p < t) l) ∨
    (∃ r : record,
       r ∈ l ∧ last_record s = mark r ∧ last_record_time s = pass_time r).
Proof.
  induction l as [|x l IH]; intros st s H; cbn in H.
  - injection H as <-. left. split; [reflexivity|constructor].
  - destruct (process_record standard_path st x) as [s1|e] eqn:Hstep;
      [|discriminate].
    change (fold_records standard_path s1 l = Ok s) in H.
    destruct (process_record_position _ _ _ _ Hstep)
      as [[Hstale ->]|(Hstale & Hm & Ht)].
    + destruct (IH st s H) as [[-> Hall]|(r & Hr & Hpos)].
      * left. split; [reflexivity|].
        constructor; [now apply stale_true_time|exact Hall].
      * right. exists r. split; [now apply list_elem_of_further|exact Hpos].
    + right. destruct (IH s1 s H) as [[-> _]|(r & Hr & Hpos)].
      * exists x. split; [apply list_elem_of_here|now split].
      * exists r. split; [now apply list_elem_of_further|exact Hpos].
Qed.

(** C6, as the claim states it, fails: from the ledger at [K0001+000], time
    0, the passes [K0200+000] at time 2 and [K0100+000] at time 1, handed
    over latest first, fold to mileage 0 (the second is skipped as stale);
    sorted ascending they fold to the two distances added up. Two passes
    at one time, [K0100+000] and [K0200+000] at time 1, are in ascending
    order either way round and end at different marks. And the passes
    [K0500+000], a mark with no route position, at time 1 and [K0100+000] at
    time 2 raise in ascending order and return latest first, where the first
    is skipped. *)
Lemma fold_depends_on_input_order :
  merge_sort record_le Sample.out_of_order
  = [Sample.pass "K0100+000" 1; Sample.pass "K0200+000" 2] ∧
  fold_records default_standard_path Sample.at_start Sample.out_of_order
  = Ok {| last_record := Some "K0200+000"%string; last_record_time := Some 2;
          mileage := 0%float |} ∧
  fold_records default_standard_path Sample.at_start
    (merge_sort record_le Sample.out_of_order)
  = Ok {| last_record := Some "K0200+000"%string; last_record_time := Some 2;
          mileage := (0 + 99 / 1000 + 100 / 1000)%float |} ∧
  fold_records default_standard_path Sample.at_start Sample.out_of_order
  ≠ fold_records default_standard_path Sample.at_start
      (merge_sort record_le Sample.out_of_order) ∧
  fold_records default_standard_path Sample.at_start
    [Sample.pass "K0100+000" 1; Sample.pass "K0200+000" 1]
  = Ok {| last_record := Some "K0200+000"%string; last_record_time := Some 1;
          mileage := (0 + 99 / 1000 + 100 / 1000)%float |} ∧
  fold_records default_standard_path Sample.at_start
    [Sample.pass "K0200+000" 1; Sample.pass "K0100+000" 1]
  = Ok {| last_record := Some "K0100+000"%string; last_record_time := Some 1;
          mileage := 0%float |} ∧
  fold_records default_standard_path Sample.at_start
    [Sample.pass "K0500+000" 1; Sample.pass "K0100+000" 2]
  = Raise ValueError ∧
  fold_records default_standard_path Sample.at_start
    [Sample.pass "K0100+000" 2; Sample.pass "K0500+000" 1]
  = Ok {| last_record := Some "K0100+000"%string; last_record_time := Some 2;
          mileage := (0 + 99 / 1000)%float |}.
Proof.
  split; [|split; [|split; [|split; [|split; [|split; [|split]]]]]];
    try (vm_compute; reflexivity).
  intros H.
  apply (f_equal (λ r, match r with
                       | Ok s => PrimFloat.ltb 0 (mileage s)
                       | Raise _ => false
                       end)) in H.
  vm_compute in H. discriminate.
Qed.

(** C6, amended. Whenever folding a set of events returns for two orders of
    the events, the ascending one among them, the two final states have the
    same [last_record_time], the latest of the ledger time and the times of
    the events, and, when events with the same time have the same mark, the
    same [last_record]. The folds return for every order when every event
    has a time and the ledger's [last_record] and every mark have a route
    position and parse. (The [mileage] depends on the order.) *)
Theorem fold_time_any_order (standard_path : list (list string))
    (st : fold_state) (l l' : list record) :
  l ≡ₚ l' →
  (∀ s s' : fold_state,
     fold_records standard_path st l = Ok s →
     fold_records standard_path st l' = Ok s' →
     last_record_time s = last_record_time s' ∧
     last_record_time s = latest (last_record_time st) l ∧
     ((∀ r r' : record, r ∈ l → r' ∈ l → pass_time r = pass_time r' →
                        mark r = mark r') →
      last_record s = last_record s')) ∧
  ((∀ lr : string, last_record st = Some lr → known standard_path lr) →
   Forall (timed_known standard_path) l →
   ∃ s s' : fold_state,
     fold_records standard_path st l = Ok s ∧
     fold_records standard_path st l' = Ok s').
Proof.
  intros Hperm. split.
  - intros s s' Hs Hs'.
    pose proof (fold_records_time _ _ _ _ Hs) as Ht.
    pose proof (fold_records_time _ _ _ _ Hs') as Ht'.
    rewrite <- (latest_Permutation l l' Hperm) in Ht'.
    assert (Htime : last_record_time s = last_record_time s') by congruence.
    split; [exact Htime|]. split; [exact Ht|].
    intros Hties.
    destruct (fold_records_origin _ _ _ _ Hs) as [[-> Hall]|(r & Hr & Hpos & Hpt)];
      destruct (fold_records_origin _ _ _ _ Hs')
        as [[-> Hall']|(r' & Hr' & Hpos' & Hpt')].
    + reflexivity.
    + exfalso. rewrite <- Hperm in Hr'. rewrite Forall_forall in Hall.
      destruct (Hall r' Hr') as (t & p & Hst & Hp & Hlt).
      rewrite Hst, Hpt', Hp in Htime. injection Htime as ->. lia.
    + exfalso. rewrite Hperm in Hr. rewrite Forall_forall in Hall'.
      destruct (Hall' r Hr) as (t & p & Hst & Hp & Hlt).
      rewrite Hst, Hpt, Hp in Htime. injection Htime as ->. lia.
    + rewrite Hpos, Hpos'. rewrite <- Hperm in Hr'.
      apply (Hties r r' Hr Hr'). congruence.
  - intros Hst Hl.
    assert (Hl' : Forall (timed_known standard_path) l') by now rewrite <- Hperm.
    destruct (fold_records_latest standard_path l st Hst Hl) as (s & Hs & _).
    destruct (fold_records_latest standard_path l' st Hst Hl') as (s' & Hs' & _).
    now exists s, s'.
Qed.

Lemma fold_time_any_order_witness :
  ∃ s s' : fold_state,
    fold_records default_standard_path Sample.at_start
      (merge_sort record_le Sample.out_of_order) = Ok s ∧
    fold_records default_standard_path Sample.at_start Sample.out_of_order = Ok s' ∧
    last_record_time s = last_record_time s' ∧
    last_record_time s
    = latest (Some 0) (merge_sort record_le Sample.out_of_order) ∧
    last_record s = last_record s'.
Proof.
  destruct (fold_time_any_order default_standard_path Sample.at_start
              (merge_sort record_le Sample.out_of_order) Sample.out_of_order
              (merge_sort_Permutation _ _)) as [Hsame Hreturn].
  destruct Hreturn as (s & s' & Hs & Hs').
  - intros lr Hlr. inversion Hlr; subst. split; vm_compute; reflexivity.
  - rewrite sorted_out_of_order.
    constructor; [|constructor; [|constructor]];
      apply pass_timed_known; split; vm_compute; reflexivity.
  - destruct (Hsame s s' Hs Hs') as (Htime & Hlatest & Hrecord).
    exists s, s'. split; [exact Hs|]. split; [exact Hs'|].
    split; [exact Htime|]. split; [exact Hlatest|].
    apply Hrecord. rewrite sorted_out_of_order.
    intros r r' Hr Hr' Hpt.
    apply elem_of_cons in Hr as [->|Hr];
      [|apply list_elem_of_singleton in Hr as ->];
      (apply elem_of_cons in Hr' as [->|Hr'];
       [|apply list_elem_of_singleton in Hr' as ->]);
      first [reflexivity | discriminate Hpt].
Defined.

End FoldClaims.

(** ** The store and the engine *)

Section StoreClaims.
Import Route Fold Client Processor.

Lemma raw_table_missing (d : db) :
  ∃ d2 : db,
    (drop_table_if_exists "raw_table" d ≫= create_raw_table) = Ok d2 ∧
    d2 !! "raw_table" = None.
Proof.
  unfold drop_table_if_exists, create_raw_table. cbn.
  destruct (delete "raw_table" d !! RAW_TABLE) eqn:E; eexists; (split; [reflexivity|]).
  - apply lookup_delete_eq.
  - rewrite lookup_insert_ne by discriminate. apply lookup_delete_eq.
Qed.

Lemma copy_from_missing (lines : list (list string)) (table : string) (d : db) :
  d !! table = None → copy_from lines table d = Raise DatabaseError.
Proof. intros H. unfold copy_from. now rewrite H. Qed.

Lemma import_trace_body_raises (to_timestamp : string → option Z)
    (file : option (list (list string))) (d : db) :
  import_trace_body to_timestamp file d = Raise OSError ∨
  import_trace_body to_timestamp file d = Raise DatabaseError.
Proof.
  unfold import_trace_body.
  destruct (raw_table_missing d) as (d2 & Hd2 & Hnone).
  cbn in Hd2. cbn. rewrite Hd2. cbn.
  destruct file as [lines|]; cbn; [right|left; reflexivity].
  now rewrite (copy_from_missing _ _ _ Hnone).
Qed.

(** A [with] body that raises: the exception comes out and the working copy
    goes back to the committed state. *)
Lemma db_connection_raises {A} (body : db → result (A * db)) (w : world) :
  (∀ d : db, ∃ e : exn, body d = Raise e) →
  ∃ e : exn,
    (db_connection body w).1 = Raise e ∧
    committed (db_connection body w).2 = committed w ∧
    (∀ d : db, conn (db_connection body w).2 = Some d → d = committed w).
Proof.
  intros Hbody. unfold db_connection, connect.
  destruct (conn w) as [d|] eqn:Hconn; cbn.
  - rewrite Hconn. destruct (Hbody d) as [e ->]. cbn.
    exists e. repeat split. intros d' E. now inversion E.
  - destruct (server_up w); cbn.
    + destruct (Hbody (committed w)) as [e ->]. cbn.
      exists e. repeat split. intros d' E. now inversion E.
    + exists RuntimeError. repeat split. intros d' E. congruence.
Qed.

(** C10. [import_vehicle_trace_from_csv] raises [IOError] for every file and
    every state of the store, and commits nothing: the relation it creates
    is [raw_trace_data], the COPY names [raw_table], which the first
    statement of the transaction has dropped, so the load raises and the
    transaction is rolled back. *)
Theorem import_vehicle_trace_always_raises (to_timestamp : string → option Z)
    (file : option (list (list string))) (w : world) :
  (import_vehicle_trace_from_csv to_timestamp file w).1 = Raise IOError ∧
  committed (import_vehicle_trace_from_csv to_timestamp file w).2 = committed w ∧
  (∀ d : db, conn (import_vehicle_trace_from_csv to_timestamp file w).2 = Some d →
             d = committed w) ∧
  (∀ (lines : list (list string)) (d : db),
     ∃ d2 : db,
       (drop_table_if_exists "raw_table" d ≫= create_raw_table) = Ok d2 ∧
       is_Some (d2 !! RAW_TABLE) ∧
       copy_from lines "raw_table" d2 = Raise DatabaseError).
Proof.
  destruct (db_connection_raises (import_trace_body to_timestamp file) w)
    as (e & He & Hc & Hw).
  { intros d. destruct (import_trace_body_raises to_timestamp file d) as [->| ->]; eauto. }
  unfold import_vehicle_trace_from_csv.
  destruct (db_connection (import_trace_body to_timestamp file) w) as [r w'].
  cbn in He, Hc, Hw. subst r. cbn. repeat split; auto.
  intros lines d. destruct (raw_table_missing d) as (d2 & Hd2 & Hnone).
  exists d2. repeat split; auto.
  - revert Hd2. unfold drop_table_if_exists, create_raw_table. cbn.
    destruct (delete "raw_table" d !! RAW_TABLE) eqn:E; intros [= <-].
    + rewrite E. eauto.
    + rewrite lookup_insert_eq. eauto.
  - now apply copy_from_missing.
Qed.

(** C9. [_process_single_plate] returns [False] for every plate and every
    list of records: the body raises [NameError] at [PostSQLClient], before
    a connection exists, so no working copy comes out of it and no SELECT
    or UPDATE reaches the ledger. *)
Theorem process_single_plate_always_fails (self : processor) (w : world)
    (p : string) (records : list record) :
  load_global "PostSQLClient" = Raise NameError ∧
  single_plate_try self w p records = Raise NameError ∧
  (∀ (b : bool) (session' : db), single_plate_try self w p records ≠ Ok (b, session')) ∧
  _process_single_plate self w p records = false.
Proof.
  assert (H : load_global "PostSQLClient" = Raise NameError)
    by (vm_compute; reflexivity).
  unfold _process_single_plate, single_plate_try. rewrite H. cbn.
  repeat split. discriminate.
Qed.

(** *** The engine *)

Lemma db_connection_working {A} (body : db → result (A * db)) (w : world) :
  db_connection body w
  = match working_copy w with
    | None => (Raise RuntimeError, w)
    | Some d =>
        match body d with
        | Ok (a, d') =>
            (Ok a, {| server_up := server_up w; committed := d'; conn := Some d' |})
        | Raise e =>
            (Raise e, {| server_up := server_up w; committed := committed w;
                         conn := Some (committed w) |})
        end
    end.
Proof.
  unfold db_connection, working_copy, connect.
  destruct (conn w) as [d|] eqn:Hconn; cbn.
  - now rewrite Hconn.
  - destruct (server_up w) eqn:Hup; cbn; reflexivity.
Qed.




(** The dispatcher asks the tasks for nothing but the two counts. *)
Lemma update_from_staging_unfold (submitted : string → list record → result bool)
    (self : processor) (d : db) :
  update_vehicle_info_from_staging_with submitted self d
  = select_ordered "staging_table" d ≫= λ data,
    pool_size self (plate_groups data) ≫= λ _, Ok ().
Proof.
  unfold update_vehicle_info_from_staging_with, dispatch_with.
  destruct (select_ordered "staging_table" d) as [data|e]; cbn; [|reflexivity].
  destruct (pool_size self (plate_groups data)); reflexivity.
Qed.

Lemma process_body_independent (s1 s2 : string → list record → result bool)
    (self : processor) (d : db) :
  process_body_with s1 self d = process_body_with s2 self d.
Proof.
  unfold process_body_with, finish_with.
  destruct (stage d) as [d3|e]; cbn; [|reflexivity].
  now rewrite !update_from_staging_unfold.
Qed.

Lemma stage_leaves_no_staging_table (d d3 : db) :
  stage d = Ok d3 → d3 !! "staging_table" = None.
Proof.
  unfold stage, create_and_populate_staging, import_from_staging_to_vehicle_record,
    drop_table_if_exists. cbn.
  destruct (delete STAGING_TABLE (delete "staging_table" d) !! FILTERED_TABLE)
    as [[| filtered |]|]; cbn; try discriminate.
  rewrite lookup_insert_eq.
  rewrite lookup_insert_ne by discriminate.
  rewrite lookup_delete_ne by discriminate.
  rewrite lookup_delete_ne by discriminate.
  destruct (d !! "vehicle_record") as [[| log |]|]; try discriminate.
  destruct (forallb _ _); [|discriminate].
  intros [= <-].
  rewrite lookup_insert_ne by discriminate.
  rewrite lookup_insert_ne by discriminate.
  rewrite lookup_delete_ne by discriminate.
  apply lookup_delete_eq.
Qed.

(** Every run of the aggregation raises inside the transaction: the staged
    rows are in [staging_trace_data], the dispatcher reads [staging_table]. *)
Lemma process_body_raises (submitted : string → list record → result bool)
    (self : processor) (d : db) :
  ∃ e : exn, process_body_with submitted self d = Raise e.
Proof.
  unfold process_body_with, finish_with.
  destruct (stage d) as [d3|e] eqn:Hstage; cbn; [|eauto].
  rewrite update_from_staging_unfold. unfold select_ordered.
  rewrite (stage_leaves_no_staging_table d d3 Hstage). cbn. eauto.
Qed.

Lemma process_vehicle_data_fails (submitted : string → list record → result bool)
    (self : processor) (w : world) :
  (process_vehicle_data_with submitted self w).1 = false ∧
  committed (process_vehicle_data_with submitted self w).2 = committed w ∧
  (∀ d : db, conn (process_vehicle_data_with submitted self w).2 = Some d →
             d = committed w).
Proof.
  destruct (db_connection_raises (process_body_with submitted self) w
              (process_body_raises submitted self)) as (e & He & Hc & Hw).
  unfold process_vehicle_data_with.
  destruct (db_connection (process_body_with submitted self) w) as [r w'].
  cbn in He, Hc, Hw. subst r. cbn. auto.
Qed.

Lemma drop_intermediate_keeps (d : db) :
  ∃ d' : db,
    drop_intermediate d = Ok d' ∧
    d' !! FILTERED_TABLE = d !! FILTERED_TABLE ∧
    d' !! STAGING_TABLE = d !! STAGING_TABLE.
Proof.
  unfold drop_intermediate, drop_table_if_exists. cbn.
  eexists. split; [reflexivity|].
  split; rewrite !lookup_delete_ne by discriminate; reflexivity.
Qed.

Lemma staged_rows_marked (filtered : list record) :
  forallb (λ r, bool_decide (is_Some (mark r))) (staged_rows filtered) = true.
Proof.
  apply forallb_forall. intros r Hr. apply bool_decide_eq_true.
  apply list_elem_of_In in Hr. unfold staged_rows in Hr.
  apply (proj1 (elem_of_remove_dups _ _)) in Hr.
  now apply (proj1 (list_elem_of_filter _ _ _)) in Hr as [Hr _].
Qed.

(** What the staging statements leave behind. *)
Lemma stage_staged (d : db) (filtered log : list record) :
  d !! FILTERED_TABLE = Some (Trace filtered) →
  d !! "vehicle_record" = Some (Trace log) →
  ∃ d3 : db,
    stage d = Ok d3 ∧
    d3 !! STAGING_TABLE = Some (Trace (staged_rows filtered)) ∧
    d3 !! "vehicle_record" = Some (Trace (log ++ staged_rows filtered)) ∧
    d3 !! FILTERED_TABLE = Some (Trace filtered).
Proof.
  intros Hf Hlog.
  unfold stage, create_and_populate_staging, import_from_staging_to_vehicle_record,
    drop_table_if_exists. cbn.
  rewrite !lookup_delete_ne by discriminate. rewrite Hf. cbn.
  rewrite lookup_insert_eq.
  rewrite lookup_insert_ne by discriminate.
  rewrite !lookup_delete_ne by discriminate. rewrite Hlog.
  rewrite staged_rows_marked.
  eexists. split; [reflexivity|]. split; [|split].
  - rewrite lookup_insert_ne by discriminate. apply lookup_insert_eq.
  - apply lookup_insert_eq.
  - rewrite !lookup_insert_ne by discriminate.
    now rewrite !lookup_delete_ne by discriminate.
Qed.

Lemma process_vehicle_data_rolls_back
    (submitted : string → list record → result bool)
    (self : processor) (w : world) (d : db) :
  working_copy w = Some d →
  process_vehicle_data_with submitted self w
  = (false, {| server_up := server_up w; committed := committed w;
               conn := Some (committed w) |}).
Proof.
  intros Hw. unfold process_vehicle_data_with.
  rewrite db_connection_working, Hw.
  now destruct (process_body_raises submitted self d) as [e ->].
Qed.


#[local] Arguments drop_intermediate : simpl never.






End StoreClaims.

(** * Further properties *)

(** ** The route model *)

Section RouteMoreFacts.
Import Route RouteMore.
#[local] Arguments Ascii.eqb : simpl never.

Lemma ends_with_space_rstrip (s : string) : ends_with_space (rstrip s) = false.
Proof.
  induction s as [|c s IH]; [reflexivity|].
  cbn [rstrip]. destruct (rstrip s) as [|c' r] eqn:E.
  - destruct (is_space c) eqn:Hc; cbn; [reflexivity|exact Hc].
  - exact IH.
Qed.

Lemma ends_with_space_span (s : string) : ∀ ds r,
  span_digits s = (ds, r) → r ≠ EmptyString →
  ends_with_space s = ends_with_space r.
Proof.
  induction s as [|c s IH]; intros ds r H Hne; cbn in H.
  - inversion H; subst. contradiction.
  - destruct (is_digit c) eqn:Hc.
    + destruct (span_digits s) as [ds' r'] eqn:E. inversion H; subst.
      rewrite <- (IH ds' r eq_refl Hne).
      destruct s as [|c' s]; [|reflexivity].
      cbn in E. inversion E; subst. contradiction.
    + now inversion H.
Qed.

(** After [strip], the pattern of [mark_parse] matches mark tokens only: the
    newline its [$] would let pass cannot be there. *)
Lemma match_mark_strip (m : string) :
  is_mark_token (strip m) = false → match_mark (strip m) = None.
Proof.
  intros Htoken.
  pose proof (ends_with_space_rstrip (lstrip m)) as Hend.
  fold (strip m) in Hend.
  destruct (strip m) as [|k rest]; [reflexivity|].
  unfold match_mark. unfold is_mark_token in Htoken.
  destruct k as [[] [] [] [] [] [] [] []]; try reflexivity.
  destruct (span_digits rest) as [ds r] eqn:E.
  destruct ds as [|d ds]; [reflexivity|].
  destruct r as [|s r]; [reflexivity|].
  destruct s as [[] [] [] [] [] [] [] []]; try reflexivity.
  destruct r as [|a [|b [|c tail]]]; try reflexivity.
  destruct tail as [|nl tail].
  - cbn [at_end]. rewrite Bool.andb_true_r, Htoken. reflexivity.
  - destruct (is_digit a && is_digit b && is_digit c) eqn:Hd; [|reflexivity].
    cbn [andb]. destruct (at_end (String nl tail)) eqn:Hat; [|reflexivity].
    exfalso. destruct tail as [|? ?]; [|discriminate].
    cbn in Hat. apply Nat.eqb_eq in Hat.
    assert (Hrest : rest ≠ EmptyString).
    { intros ->. cbn in E. inversion E. }
    assert (Hk : ends_with_space (String "K" rest) = ends_with_space rest).
    { destruct rest; [contradiction|reflexivity]. }
    change (ends_with_space (String "K" rest) = false) in Hend.
    rewrite Hk, (ends_with_space_span rest _ _ E) in Hend by discriminate.
    cbn in Hend. unfold is_space in Hend. rewrite Hat in Hend. discriminate.
Qed.

Lemma float_of_int_not_ValueError (z : Z) : float_of_int z ≠ Raise ValueError.
Proof. unfold float_of_int. destruct (is_infinity _); discriminate. Qed.

(** X1. mark_parse on a text of characters below U+0100: the marks it
    accepts are the mark tokens [K<km>+<mmm>] surrounded by white space. For
    such a text it computes [km + mmm / 1000] and raises [ValueError] exactly
    when [km] has more digits than [int] converts; every other text raises
    [ValueError]. *)
Theorem mark_parse_accepts_tokens (m : string) :
  (is_mark_token (strip m) = true →
   ∃ km mmm : string,
     strip m = String "K" (km +:+ String "+" mmm)%string ∧
     mark_parse m
     = (int km ≫= λ km_part,
        int mmm ≫= λ meter_part,
        float_of_int meter_part ≫= λ x,
        float_of_int km_part ≫= λ k, Ok (k + x / 1000)%float) ∧
     (Z.of_nat (String.length km) <= int_max_str_digits →
      mark_parse m
      = float_of_int (int_of_digits 0 mmm) ≫= λ x,
        float_of_int (int_of_digits 0 km) ≫= λ k, Ok (k + x / 1000)%float) ∧
     (mark_parse m = Raise ValueError ↔
      int_max_str_digits < Z.of_nat (String.length km))) ∧
  (is_mark_token (strip m) = false → mark_parse m = Raise ValueError).
Proof.
  split.
  - intros H.
    assert (Hstrip : mark_parse m = mark_parse (strip m)).
    { unfold mark_parse. now rewrite (strip_token (strip m) H). }
    destruct (mark_parse_token_value (strip m) H)
      as (km & mmm & Hform & Hparse & Hvalue & Hlimit).
    exists km, mmm. rewrite Hstrip.
    split; [exact Hform|]. split; [exact Hparse|]. split; [exact Hvalue|].
    split; [|exact Hlimit].
    intros Hraise.
    destruct (Z.ltb_spec int_max_str_digits (Z.of_nat (String.length km)))
      as [Hlong|Hshort]; [exact Hlong|].
    exfalso. rewrite (Hvalue Hshort) in Hraise.
    destruct (float_of_int (int_of_digits 0 mmm)) as [x|e] eqn:Ex; cbn in Hraise.
    + destruct (float_of_int (int_of_digits 0 km)) as [k|e] eqn:Ek; cbn in Hraise;
        [discriminate|].
      rewrite <- Ek in Hraise. now apply float_of_int_not_ValueError in Hraise.
    + rewrite <- Ex in Hraise. now apply float_of_int_not_ValueError in Hraise.
  - intros H. unfold mark_parse. now rewrite (match_mark_strip m H).
Qed.

Lemma scan_Some_inv (m : string) (l : list string) : ∀ k n : nat,
  scan m l k = Some n →
  ∃ (i : nat) (p : string),
    n = (k + i)%nat ∧ l !! i = Some p ∧ contains p m = true ∧
    ∀ (j : nat) (q : string), (j < i)%nat → l !! j = Some q → contains q m = false.
Proof.
  induction l as [|x l IH]; intros k n H; [discriminate|].
  cbn in H. destruct (contains x m) eqn:Hx.
  - inversion H; subst. exists 0%nat, x.
    split; [lia|]. split; [reflexivity|]. split; [exact Hx|].
    intros j q Hj. lia.
  - destruct (IH (S k) n H) as (i & p & -> & Hi & Hp & Hbefore).
    exists (S i), p.
    split; [lia|]. split; [exact Hi|]. split; [exact Hp|].
    intros [|j] q Hj Hq.
    + inversion Hq; subst. exact Hx.
    + apply (Hbefore j); [lia|exact Hq].
Qed.

Lemma scan_None_inv (m : string) (l : list string) : ∀ k : nat,
  scan m l k = None → ∀ q : string, q ∈ l → contains q m = false.
Proof.
  induction l as [|x l IH]; intros k H q Hq; [inversion Hq|].
  cbn in H. destruct (contains x m) eqn:Hx; [discriminate|].
  apply elem_of_cons in Hq as [->|Hq]; [exact Hx|]. eapply IH; eauto.
Qed.

Lemma path_index_range (outbound inbound : list string)
    (more : list (list string)) (m : string) (i : Z) :
  path_index (outbound :: inbound :: more) (Some m) = Ok i →
  0 <= i < Z.of_nat (List.length outbound) ∨ 10000 <= i.
Proof.
  unfold path_index, subscript. cbn.
  destruct (scan m outbound 0) as [n|] eqn:Hout.
  - intros [= <-]. left.
    destruct (scan_Some_inv m outbound 0 n Hout) as (k & p & -> & Hk & _).
    apply lookup_lt_Some in Hk. lia.
  - destruct (scan m inbound 0) as [n|]; [|discriminate].
    intros [= <-]. right. lia.
Qed.

(** X2. path_index: a position it returns is either an outbound index, the
    first of the outbound entries that contain the mark, or 10000 plus an
    inbound index, the first of the inbound entries that contain the mark
    when no outbound entry does. *)
Theorem path_index_sound (outbound inbound : list string)
    (more : list (list string)) (m : string) (i : Z) :
  path_index (outbound :: inbound :: more) (Some m) = Ok i →
  (∃ (k : nat) (p : string),
     i = Z.of_nat k ∧ (k < List.length outbound)%nat ∧
     outbound !! k = Some p ∧ contains p m = true ∧
     ∀ (j : nat) (q : string), (j < k)%nat → outbound !! j = Some q →
                               contains q m = false) ∨
  (∃ (k : nat) (p : string),
     i = Z.of_nat k + 10000 ∧ (k < List.length inbound)%nat ∧
     inbound !! k = Some p ∧ contains p m = true ∧
     (∀ q : string, q ∈ outbound → contains q m = false) ∧
     ∀ (j : nat) (q : string), (j < k)%nat → inbound !! j = Some q →
                               contains q m = false).
Proof.
  unfold path_index, subscript. cbn.
  destruct (scan m outbound 0) as [n|] eqn:Hout.
  - intros [= <-]. left.
    destruct (scan_Some_inv m outbound 0 n Hout) as (k & p & -> & Hk & Hp & Hb).
    exists k, p. split; [reflexivity|].
    split; [now apply lookup_lt_Some in Hk|]. split; [exact Hk|].
    split; [exact Hp|exact Hb].
  - destruct (scan m inbound 0) as [n|] eqn:Hin; [|discriminate].
    intros [= <-]. right.
    destruct (scan_Some_inv m inbound 0 n Hin) as (k & p & -> & Hk & Hp & Hb).
    exists k, p. split; [lia|].
    split; [now apply lookup_lt_Some in Hk|]. split; [exact Hk|].
    split; [exact Hp|]. split; [|exact Hb].
    now apply (scan_None_inv m outbound 0).
Qed.

Lemma path_index_sound_witness :
  (∃ (k : nat) (p : string),
     1 = Z.of_nat k ∧ (k < 4)%nat ∧
     ["K0001+000"; "K0100+000"; "K0200+000"; "K0300+000"]%string !! k = Some p ∧
     contains p "K0100" = true ∧
     ∀ (j : nat) (q : string),
       (j < k)%nat →
       ["K0001+000"; "K0100+000"; "K0200+000"; "K0300+000"]%string !! j = Some q →
       contains q "K0100" = false) ∨
  (∃ (k : nat) (p : string),
     1 = Z.of_nat k + 10000 ∧ (k < 4)%nat ∧
     ["K0001+300"; "K0100+300"; "K0100+300"; "K0100+300"]%string !! k = Some p ∧
     contains p "K0100" = true ∧
     (∀ q : string,
        q ∈ ["K0001+000"; "K0100+000"; "K0200+000"; "K0300+000"]%string →
        contains q "K0100" = false) ∧
     ∀ (j : nat) (q : string),
       (j < k)%nat →
       ["K0001+300"; "K0100+300"; "K0100+300"; "K0100+300"]%string !! j = Some q →
       contains q "K0100" = false).
Proof.
  apply (path_index_sound
           ["K0001+000"; "K0100+000"; "K0200+000"; "K0300+000"]%string
           ["K0001+300"; "K0100+300"; "K0100+300"; "K0100+300"]%string
           [] "K0100" 1).
  reflexivity.
Defined.

(** X3. is_continuous: it is never true of a mark and itself, and, with fewer
    than 10000 outbound positions, never true of two marks in different
    directions: the two positions are both below 10000 or both from 10000
    on. *)
Theorem is_continuous_same_direction (outbound inbound : list string)
    (more : list (list string)) (a b : string) :
  is_continuous (outbound :: inbound :: more) a a ≠ Ok true ∧
  (Z.of_nat (List.length outbound) < 10000 →
   is_continuous (outbound :: inbound :: more) a b = Ok true →
   ∃ ia ib : Z,
     path_index (outbound :: inbound :: more) (Some a) = Ok ia ∧
     path_index (outbound :: inbound :: more) (Some b) = Ok ib ∧
     ia = ib + 1 ∧
     ((ia < 10000 ∧ ib < 10000) ∨ (10000 <= ia ∧ 10000 <= ib))).
Proof.
  split.
  - unfold is_continuous.
    destruct (path_index (outbound :: inbound :: more) (Some a)) as [ia|e];
      [|discriminate].
    change (Ok (ia - ia =? 1) ≠ Ok true).
    rewrite Z.sub_diag. discriminate.
  - intros Hlen H. unfold is_continuous in H.
    destruct (path_index (outbound :: inbound :: more) (Some a)) as [ia|e] eqn:Ha;
      [|discriminate].
    destruct (path_index (outbound :: inbound :: more) (Some b)) as [ib|e] eqn:Hb;
      [|discriminate].
    change (Ok (ia - ib =? 1) = Ok true) in H.
    assert (Hstep : (ia - ib =? 1) = true) by congruence.
    apply Z.eqb_eq in Hstep.
    exists ia, ib. split; [reflexivity|]. split; [reflexivity|].
    split; [lia|].
    pose proof (path_index_range _ _ _ _ _ Ha).
    pose proof (path_index_range _ _ _ _ _ Hb). lia.
Qed.

Lemma is_continuous_same_direction_witness :
  ∃ ia ib : Z,
    path_index default_standard_path (Some "K0100+300"%string) = Ok ia ∧
    path_index default_standard_path (Some "K0001+300"%string) = Ok ib ∧
    ia = ib + 1 ∧
    ((ia < 10000 ∧ ib < 10000) ∨ (10000 <= ia ∧ 10000 <= ib)).
Proof.
  apply (proj2 (is_continuous_same_direction
                  ["K0001+000"; "K0100+000"; "K0200+000"; "K0300+000"]%string
                  ["K0001+300"; "K0100+300"; "K0100+300"; "K0100+300"]%string
                  [] "K0100+300" "K0001+300")).
  - cbn. lia.
  - vm_compute. reflexivity.
Defined.

End RouteMoreFacts.

(** ** The fold and the per-vehicle task *)

Section FoldMore.
Import Route Fold Client Processor Vehicles.
#[local] Arguments is_continuous : simpl never.
#[local] Arguments mileage_diff : simpl never.

(** X5. The loop of _process_single_plate: the position of the ledger after a
    batch is the one it had or the mark and time of one event of the batch,
    and a ledger time, once set, never moves backwards. *)
Theorem fold_position_from_batch (standard_path : list (list string))
    (records : list record) (st s : fold_state) :
  fold_records standard_path st records = Ok s →
  ((last_record s = last_record st ∧ last_record_time s = last_record_time st) ∨
   (∃ r : record, r ∈ records ∧
      last_record s = mark r ∧ last_record_time s = pass_time r)) ∧
  (∀ t : Z, last_record_time st = Some t →
     ∃ t' : Z, last_record_time s = Some t' ∧ t <= t').
Proof.
  revert st. induction records as [|r rest IH]; intros st H; cbn in H.
  - injection H as <-. split; [now left|].
    intros t Ht. exists t. split; [exact Ht|lia].
  - destruct (process_record standard_path st r) as [s1|e] eqn:Hstep;
      [|discriminate].
    change (fold_records standard_path s1 rest = Ok s) in H.
    destruct (IH s1 H) as [Hpos Htime].
    destruct (process_record_position _ _ _ _ Hstep)
      as [[_ ->]|(Hstale & Hm & Ht1)].
    + split; [|exact Htime].
      destruct Hpos as [Hpos|(x & Hx & Hpos)]; [now left|].
      right. exists x. split; [now apply list_elem_of_further|exact Hpos].
    + split.
      * right. destruct Hpos as [[Ha Hb]|(x & Hx & Hpos)].
        -- exists r. split; [apply list_elem_of_here|].
           split; congruence.
        -- exists x. split; [now apply list_elem_of_further|exact Hpos].
      * intros t Ht.
        destruct (stale_false_time st r t Hstale Ht) as (p & Hp & Hle).
        destruct (Htime p) as (t' & Ht' & Hle'); [congruence|].
        exists t'. split; [exact Ht'|lia].
Qed.

Lemma fold_position_from_batch_witness :
  ∃ t' : Z,
    last_record_time
      {| last_record := Some "K0200+000"%string; last_record_time := Some 2;
         mileage := 0 |} = Some t' ∧ 0 <= t'.
Proof.
  apply (proj2 (fold_position_from_batch default_standard_path Sample.out_of_order
                  Sample.at_start _ eq_refl) 0 eq_refl).
Defined.

Lemma fold_records_stale (standard_path : list (list string))
    (st : fold_state) (t : Z) (records : list record) :
  last_record_time st = Some t →
  Forall (λ r, ∃ p : Z, pass_time r = Some p ∧ p < t) records →
  fold_records standard_path st records = Ok st.
Proof.
  intros Ht. induction 1 as [|r rest (p & Hp & Hlt) _ IH]; [reflexivity|].
  cbn [fold_records]. rewrite (process_record_stale _ st r t p Ht Hp Hlt).
  exact IH.
Qed.

Lemma loaded_set_ledger (st : fold_state) (pts : float) (row : vehicle_info_row) :
  loaded (set_ledger (last_record st) (last_record_time st) (mileage st) pts row) = st.
Proof. now destruct st. Qed.

Lemma select_vehicle_info_rows (p : string) (session : db)
    (found : list vehicle_info_row) :
  select_vehicle_info p session = Ok found →
  ∃ rows : list vehicle_info_row,
    session !! "vehicle_info" = Some (VehicleInfo rows) ∧
    found = filter (λ row, vi_plate row = p) rows.
Proof.
  unfold select_vehicle_info.
  destruct (session !! "vehicle_info") as [[?|?|rows]|]; try discriminate.
  intros [= <-]. now exists rows.
Qed.

Lemma update_vehicle_info_rows (p : string) (lr : option string) (lrt : option Z)
    (m pts : float) (session : db) (rows : list vehicle_info_row) :
  session !! "vehicle_info" = Some (VehicleInfo rows) →
  update_vehicle_info p lr lrt m pts session
  = Ok (<["vehicle_info" :=
           VehicleInfo ((λ row, if decide (vi_plate row = p)
                                then set_ledger lr lrt m pts row else row) <$> rows)]>
          session).
Proof. unfold update_vehicle_info. now intros ->. Qed.

(** What the task does to a session in which the plate has a ledger row. *)
Lemma plate_task_body_found (standard_path : list (list string)) (p : string)
    (records : list record) (session : db)
    (rows : list vehicle_info_row) (row : vehicle_info_row)
    (others : list vehicle_info_row) :
  session !! "vehicle_info" = Some (VehicleInfo rows) →
  filter (λ r, vi_plate r = p) rows = row :: others →
  plate_task_body standard_path p records session
  = fold_records standard_path (loaded row) records ≫= λ st,
    Ok (true,
        <["vehicle_info" :=
           VehicleInfo ((λ r, if decide (vi_plate r = p)
                              then set_ledger (last_record st) (last_record_time st)
                                     (mileage st) (mileage st * vi_bonus row)%float r
                              else r) <$> rows)]> session).
Proof.
  intros Hrows Hfilter. unfold plate_task_body, select_vehicle_info.
  rewrite Hrows. cbn. rewrite Hfilter.
  destruct (fold_records standard_path (loaded row) records) as [st|e];
    [|reflexivity].
  cbn. now rewrite (update_vehicle_info_rows _ _ _ _ _ _ _ Hrows).
Qed.

(** X6. _process_single_plate, the body of its try block: a batch whose events
    are all earlier than the time of the ledger row is skipped whole, and the
    UPDATE still runs: each row of the plate keeps the position, time and
    mileage of the ledger row and gets points = mileage * bonus, its other
    columns and every other row stay as they are. *)
Theorem stale_batch_keeps_ledger (standard_path : list (list string)) (p : string)
    (records : list record) (session : db)
    (rows : list vehicle_info_row) (row : vehicle_info_row)
    (others : list vehicle_info_row) (t : Z) :
  session !! "vehicle_info" = Some (VehicleInfo rows) →
  filter (λ r, vi_plate r = p) rows = row :: others →
  vi_last_record_time row = Some t →
  Forall (λ r, ∃ q : Z, pass_time r = Some q ∧ q < t) records →
  ∃ (session' : db) (rows' : list vehicle_info_row),
    plate_task_body standard_path p records session = Ok (true, session') ∧
    session' !! "vehicle_info" = Some (VehicleInfo rows') ∧
    (∀ table : string, table ≠ "vehicle_info"%string →
       session' !! table = session !! table) ∧
    List.length rows' = List.length rows ∧
    ∀ (i : nat) (before after : vehicle_info_row),
      rows !! i = Some before → rows' !! i = Some after →
      (vi_plate before = p →
       vi_last_record after = vi_last_record row ∧
       vi_last_record_time after = Some t ∧
       vi_mileage after = vi_mileage row ∧
       vi_points after = (vi_mileage row * vi_bonus row)%float ∧
       master_data after = master_data before) ∧
      (vi_plate before ≠ p → after = before).
Proof.
  intros Hrows Hfilter Ht Hstale.
  rewrite (plate_task_body_found _ _ _ _ _ _ _ Hrows Hfilter).
  rewrite (fold_records_stale standard_path (loaded row) t records Ht Hstale).
  cbn [mbind result_bind loaded last_record last_record_time mileage].
  eexists _, _. split; [reflexivity|]. split; [apply lookup_insert_eq|].
  split; [intros table Htable; now rewrite lookup_insert_ne|].
  split; [now rewrite length_fmap|].
  intros i before after Hbefore Hafter.
  rewrite list_lookup_fmap, Hbefore in Hafter. cbn in Hafter.
  injection Hafter as <-. split.
  - intros Hp. rewrite decide_True by exact Hp. rewrite Ht. now repeat split.
  - intros Hp. now rewrite decide_False by exact Hp.
Qed.

Lemma stale_batch_keeps_ledger_witness :
  ∃ (session' : db) (rows' : list vehicle_info_row),
    plate_task_body default_standard_path "A10001"
      [Sample.pass "K0300+000" 1; Sample.pass "K0500+000" 2] (Sample.ledger_db 5 7)
    = Ok (true, session') ∧
    session' !! "vehicle_info" = Some (VehicleInfo rows') ∧
    (∀ table : string, table ≠ "vehicle_info"%string →
       session' !! table = Sample.ledger_db 5 7 !! table) ∧
    List.length rows' = List.length [Sample.ledger_row 5 7] ∧
    ∀ (i : nat) (before after : vehicle_info_row),
      [Sample.ledger_row 5 7] !! i = Some before → rows' !! i = Some after →
      (vi_plate before = "A10001"%string →
       vi_last_record after = vi_last_record (Sample.ledger_row 5 7) ∧
       vi_last_record_time after = Some 5 ∧
       vi_mileage after = vi_mileage (Sample.ledger_row 5 7) ∧
       vi_points after
       = (vi_mileage (Sample.ledger_row 5 7) * vi_bonus (Sample.ledger_row 5 7))%float ∧
       master_data after = master_data before) ∧
      (vi_plate before ≠ "A10001"%string → after = before).
Proof.
  apply (stale_batch_keeps_ledger default_standard_path "A10001"
           [Sample.pass "K0300+000" 1; Sample.pass "K0500+000" 2]
           (Sample.ledger_db 5 7) [Sample.ledger_row 5 7] (Sample.ledger_row 5 7) [] 5).
  - reflexivity.
  - reflexivity.
  - reflexivity.
  - constructor; [exists 1; split; [reflexivity|lia]|].
    constructor; [exists 2; split; [reflexivity|lia]|constructor].
Defined.

Lemma set_ledger_twice (p : string) (lr lr' : option string) (lrt lrt' : option Z)
    (m m' pts pts' : float) (rows : list vehicle_info_row) :
  (λ r, if decide (vi_plate r = p) then set_ledger lr' lrt' m' pts' r else r)
    <$> ((λ r, if decide (vi_plate r = p) then set_ledger lr lrt m pts r else r)
           <$> rows)
  = (λ r, if decide (vi_plate r = p) then set_ledger lr' lrt' m' pts' r else r)
      <$> rows.
Proof.
  rewrite <- list_fmap_compose. apply list_fmap_ext. intros _ r _. cbn.
  destruct (decide (vi_plate r = p)) as [Hp|Hp].
  - cbn. rewrite decide_True by exact Hp. reflexivity.
  - rewrite decide_False by exact Hp. reflexivity.
Qed.

(** X7. _process_single_plate, the body of its try block: running it on a batch
    and then, on the session that run left, on a second batch gives what one
    run on the two batches in a row gives. *)
Theorem task_batches_compose (standard_path : list (list string)) (p : string)
    (first second : list record) (session session1 : db) (b : bool) :
  plate_task_body standard_path p first session = Ok (b, session1) →
  plate_task_body standard_path p (first ++ second) session
  = plate_task_body standard_path p second session1.
Proof.
  intros H.
  destruct (select_vehicle_info p session) as [found|e] eqn:Hsel.
  2:{ unfold plate_task_body in H. rewrite Hsel in H. discriminate. }
  destruct (select_vehicle_info_rows _ _ _ Hsel) as (rows & Hrows & ->).
  destruct (filter (λ row, vi_plate row = p) rows) as [|row others] eqn:Hfilter.
  - unfold plate_task_body in *. rewrite Hsel in *. cbn in *.
    injection H as <- <-. now rewrite Hsel.
  - rewrite (plate_task_body_found _ _ first _ _ _ _ Hrows Hfilter) in H.
    rewrite (plate_task_body_found _ _ (first ++ second) _ _ _ _ Hrows Hfilter).
    rewrite fold_records_app.
    destruct (fold_records standard_path (loaded row) first) as [st|e];
      [|cbn in H; discriminate].
    cbn in H. injection H as <- <-. cbn.
    set (f := λ r, if decide (vi_plate r = p)
                   then set_ledger (last_record st) (last_record_time st)
                          (mileage st) (mileage st * vi_bonus row)%float r
                   else r).
    assert (Hrows1 : (<["vehicle_info" := VehicleInfo (f <$> rows)]> session)
                       !! "vehicle_info" = Some (VehicleInfo (f <$> rows)))
      by apply lookup_insert_eq.
    assert (Hfilter1 : filter (λ r, vi_plate r = p) (f <$> rows)
                       = f row :: (f <$> others)).
    { unfold f at 1. rewrite filter_plate_set_ledger, Hfilter. cbn.
      assert (Hrow : row ∈ filter (λ r, vi_plate r = p) rows)
        by (rewrite Hfilter; apply list_elem_of_here).
      apply list_elem_of_filter in Hrow as [Hrow _].
      f_equal.
      - unfold f. now rewrite decide_True by exact Hrow.
      - apply list_fmap_ext. intros i r Hr.
        assert (Hin : r ∈ filter (λ r, vi_plate r = p) rows).
        { rewrite Hfilter. apply list_elem_of_further.
          eapply list_elem_of_lookup_2; eauto. }
        apply list_elem_of_filter in Hin as [Hin _].
        unfold f. now rewrite decide_True by exact Hin. }
    rewrite (plate_task_body_found _ _ _ _ _ _ _ Hrows1 Hfilter1).
    assert (Hrow : vi_plate row = p).
    { assert (Hin : row ∈ filter (λ r, vi_plate r = p) rows)
        by (rewrite Hfilter; apply list_elem_of_here).
      now apply list_elem_of_filter in Hin as [Hin _]. }
    assert (Hloaded : loaded (f row) = st).
    { unfold f. rewrite decide_True by exact Hrow. apply loaded_set_ledger. }
    assert (Hbonus : vi_bonus (f row) = vi_bonus row).
    { unfold f. now rewrite decide_True by exact Hrow. }
    rewrite Hloaded, Hbonus.
    destruct (fold_records standard_path st second) as [st2|e]; [|reflexivity].
    cbn. unfold f. rewrite set_ledger_twice, insert_insert_eq. reflexivity.
Qed.

Lemma task_batches_compose_witness :
  plate_task_body default_standard_path "A10001"
    ([Sample.pass "K0100+000" 1] ++ [Sample.pass "K0200+000" 2]) (Sample.ledger_db 0 0)
  = plate_task_body default_standard_path "A10001" [Sample.pass "K0200+000" 2]
      (<["vehicle_info" :=
          VehicleInfo [set_ledger (Some "K0100+000"%string) (Some 1)
                         (0 + 99 / 1000)%float ((0 + 99 / 1000) * 2)%float
                         (Sample.ledger_row 0 0)]]> (Sample.ledger_db 0 0)).
Proof.
  apply (task_batches_compose default_standard_path "A10001"
           [Sample.pass "K0100+000" 1] [Sample.pass "K0200+000" 2]
           (Sample.ledger_db 0 0) _ true).
  vm_compute. reflexivity.
Defined.

(** X8. _process_single_plate, the body of its try block: when it returns, it
    returns True, and it has changed nothing but the ledger columns of the
    rows of its own plate: the other relations, the rows of other plates and
    the master data of every row are as before. *)
Theorem task_touches_own_ledger_only (standard_path : list (list string))
    (p : string) (records : list record) (session session' : db) (b : bool) :
  plate_task_body standard_path p records session = Ok (b, session') →
  b = true ∧
  (∀ t : string, t ≠ "vehicle_info"%string → session' !! t = session !! t) ∧
  ∃ rows rows' : list vehicle_info_row,
    session !! "vehicle_info" = Some (VehicleInfo rows) ∧
    session' !! "vehicle_info" = Some (VehicleInfo rows') ∧
    master_data <$> rows' = master_data <$> rows ∧
    filter (λ r, vi_plate r ≠ p) rows' = filter (λ r, vi_plate r ≠ p) rows.
Proof.
  intros H.
  destruct (select_vehicle_info p session) as [found|e] eqn:Hsel.
  2:{ unfold plate_task_body in H. rewrite Hsel in H. discriminate. }
  destruct (select_vehicle_info_rows _ _ _ Hsel) as (rows & Hrows & ->).
  destruct (filter (λ row, vi_plate row = p) rows) as [|row others] eqn:Hfilter.
  - unfold plate_task_body in H. rewrite Hsel in H. cbn in H.
    injection H as <- <-. split; [reflexivity|]. split; [reflexivity|].
    now exists rows, rows.
  - rewrite (plate_task_body_found _ _ _ _ _ _ _ Hrows Hfilter) in H.
    destruct (fold_records standard_path (loaded row) records) as [st|e];
      [|cbn in H; discriminate].
    cbn in H. injection H as <- <-. split; [reflexivity|]. split.
    + intros t Ht. now rewrite lookup_insert_ne.
    + eexists rows, _. split; [exact Hrows|]. split; [apply lookup_insert_eq|].
      split.
      * rewrite <- list_fmap_compose. apply list_fmap_ext. intros _ r _. cbn.
        now destruct (decide (vi_plate r = p)).
      * clear Hrows Hfilter. induction rows as [|r rows IH]; [reflexivity|].
        cbn [fmap list_fmap]. destruct (decide (vi_plate r = p)) as [Hp|Hp].
        -- rewrite !filter_cons_False; [exact IH| |]; cbn; tauto.
        -- rewrite !filter_cons_True by exact Hp. now rewrite IH.
Qed.

Lemma task_touches_own_ledger_only_witness :
  ∃ rows' : list vehicle_info_row,
    master_data <$> rows' = master_data <$> [Sample.ledger_row 0 0] ∧
    filter (λ r, vi_plate r ≠ "A10001"%string) rows' = [].
Proof.
  destruct (task_touches_own_ledger_only default_standard_path "A10001"
              [Sample.pass "K0100+000" 1] (Sample.ledger_db 0 0)
              (<["vehicle_info" :=
                  VehicleInfo [set_ledger (Some "K0100+000"%string) (Some 1)
                                 (0 + 99 / 1000)%float ((0 + 99 / 1000) * 2)%float
                                 (Sample.ledger_row 0 0)]]> (Sample.ledger_db 0 0))
              true)
    as (_ & _ & rows & rows' & Hrows & _ & Hmaster & Hothers).
  - vm_compute. reflexivity.
  - assert (rows = [Sample.ledger_row 0 0]) as ->.
    { assert (H : Sample.ledger_db 0 0 !! "vehicle_info"
                  = Some (VehicleInfo [Sample.ledger_row 0 0])) by reflexivity.
      congruence. }
    exists rows'. split; [exact Hmaster|exact Hothers].
Defined.

End FoldMore.

(** ** The dispatcher, the connection and the staging statements *)

Section EngineMore.
Import Route Fold Client Processor.

Lemma group_append_concat (r : record) (groups : list (string * list record)) :
  mjoin (group_append r groups).*2 ≡ₚ r :: mjoin groups.*2.
Proof.
  induction groups as [|[p rs] groups IH]; cbn [group_append].
  - reflexivity.
  - destruct (decide (p = plate r)) as [_|_]; cbn.
    + rewrite <- app_assoc. cbn. symmetry. apply Permutation_middle.
    + rewrite IH. symmetry. apply Permutation_middle.
Qed.

Lemma plate_groups_concat (l : list record) : mjoin (plate_groups l).*2 ≡ₚ l.
Proof.
  induction l as [|r l IH] using rev_ind; [reflexivity|].
  rewrite plate_groups_snoc, group_append_concat, IH.
  apply Permutation_cons_append.
Qed.

Lemma group_append_nonempty (r : record) (groups : list (string * list record)) :
  Forall (λ g, g.2 ≠ []) groups → Forall (λ g, g.2 ≠ []) (group_append r groups).
Proof.
  induction 1 as [|[p rs] groups Hg Hrest IH]; cbn [group_append].
  - constructor; [discriminate|constructor].
  - destruct (decide (p = plate r)) as [_|_].
    + constructor; [|exact Hrest]. cbn. now destruct rs.
    + constructor; [exact Hg|exact IH].
Qed.

Lemma plate_groups_nonempty (l : list record) :
  Forall (λ g, g.2 ≠ []) (plate_groups l).
Proof.
  induction l as [|r l IH] using rev_ind; [constructor|].
  rewrite plate_groups_snoc. now apply group_append_nonempty.
Qed.

(** X10. The grouping of _update_vehicle_info_from_staging: the groups are a
    partition of the selected rows by plate. No plate has two groups, the
    group of a plate holds exactly the rows of that plate in the order of
    the SELECT, no group is empty, and together the groups hold every row
    once. *)
Theorem plate_groups_partition (staging_data : list record) :
  NoDup (plate_groups staging_data).*1 ∧
  (∀ (p : string) (rs : list record),
     (p, rs) ∈ plate_groups staging_data ↔
     rs = filter (λ r, plate r = p) staging_data ∧ rs ≠ []) ∧
  mjoin (plate_groups staging_data).*2 ≡ₚ staging_data.
Proof.
  split; [apply plate_groups_NoDup|]. split; [|apply plate_groups_concat].
  intros p rs. split.
  - intros Hin. split; [now apply plate_groups_elem|].
    pose proof (plate_groups_nonempty staging_data) as Hne.
    rewrite Forall_forall in Hne. exact (Hne _ Hin).
  - intros [-> Hne].
    destruct (filter (λ r, plate r = p) staging_data) as [|r rest] eqn:Hf;
      [contradiction|].
    assert (Hr : r ∈ filter (λ r, plate r = p) staging_data)
      by (rewrite Hf; apply list_elem_of_here).
    apply list_elem_of_filter in Hr as [Hp Hr].
    rewrite <- (plate_groups_concat staging_data) in Hr.
    apply list_elem_of_join in Hr as (rs & Hrs & Hgroup).
    apply list_elem_of_fmap in Hgroup as ([q rs'] & Heq & Hgroup).
    cbn in Heq. subst rs'.
    pose proof (plate_groups_elem _ _ _ Hgroup) as Hrs'.
    assert (q = p) as ->.
    { rewrite Hrs' in Hrs. apply list_elem_of_filter in Hrs as [Hq _]. congruence. }
    rewrite <- Hf, <- Hrs'. exact Hgroup.
Qed.

(** X11. The pool of _update_vehicle_info_from_staging: a pool that is created
    has at least one worker, at most one per plate and at most
    cpu_count * max_threads_multiplier; with no staged row no pool is
    created and the function raises ValueError. *)
Theorem pool_size_bounds (self : processor) :
  (∀ (jobs : list (string * list record)) (n : Z),
     pool_size self jobs = Ok n →
     1 <= n ∧ n <= Z.of_nat (List.length jobs) ∧
     ∃ c : Z, cpu_count self = Some c ∧ n <= c * max_threads_multiplier self) ∧
  (∀ (submitted : string → list record → result bool) (d : db),
     d !! "staging_table" = Some (Trace []) →
     is_Some (cpu_count self) →
     update_vehicle_info_from_staging_with submitted self d = Raise ValueError).
Proof.
  split.
  - intros jobs n. unfold pool_size.
    destruct (cpu_count self) as [c|]; [|discriminate].
    destruct (Z.min _ _ <=? 0) eqn:Hmin; [discriminate|].
    intros [= <-]. apply Z.leb_gt in Hmin.
    split; [lia|]. split; [lia|]. exists c. split; [reflexivity|lia].
  - intros submitted d Hd [c Hc].
    rewrite update_from_staging_unfold. unfold select_ordered. rewrite Hd.
    cbn. unfold pool_size. rewrite Hc. cbn [List.length].
    change (Z.of_nat 0) with 0.
    assert (Hmin : (Z.min 0 (c * max_threads_multiplier self) <=? 0) = true)
      by (apply Z.leb_le; lia).
    now rewrite Hmin.
Qed.

(** X12. db_connection: without a connection and with the server down the block
    is not run, the outcome is RuntimeError and nothing changes. Otherwise
    the connection is left without uncommitted work; an exception of the
    block leaves the committed state as it was, and a normal end commits
    exactly what the block left. *)
Theorem db_connection_settles {A} (body : db → result (A * db)) (w : world) :
  (working_copy w = None → db_connection body w = (Raise RuntimeError, w)) ∧
  (is_Some (working_copy w) →
   conn (db_connection body w).2 = Some (committed (db_connection body w).2) ∧
   server_up (db_connection body w).2 = server_up w) ∧
  (∀ e : exn, (db_connection body w).1 = Raise e →
     committed (db_connection body w).2 = committed w) ∧
  (∀ a : A, (db_connection body w).1 = Ok a →
     ∃ d d' : db, working_copy w = Some d ∧ body d = Ok (a, d') ∧
                  committed (db_connection body w).2 = d').
Proof.
  rewrite db_connection_working.
  destruct (working_copy w) as [d|] eqn:Hw.
  - destruct (body d) as [[a d']|e] eqn:Hbody; cbn.
    + split; [discriminate|]. split; [auto|]. split; [discriminate|].
      intros a' [= <-]. now exists d, d'.
    + split; [discriminate|]. split; [auto|]. split; [reflexivity|].
      discriminate.
  - cbn. split; [reflexivity|]. split; [intros [? [=]]|].
    split; [reflexivity|discriminate].
Qed.

Lemma staged_rows_spec (filtered : list record) :
  NoDup (staged_rows filtered) ∧
  ∀ r : record, r ∈ staged_rows filtered ↔ r ∈ filtered ∧ is_Some (mark r).
Proof.
  unfold staged_rows. split; [apply NoDup_remove_dups|].
  intros r. rewrite elem_of_remove_dups, list_elem_of_filter. tauto.
Qed.

(** X13. create_and_populate_staging: over a filtered relation it succeeds and
    leaves in staging_trace_data each filtered row that has a mark, once;
    it changes no other relation, and running it again changes nothing. *)
Theorem staging_rebuilt (d : db) (filtered : list record) :
  d !! FILTERED_TABLE = Some (Trace filtered) →
  ∃ (d' : db) (staged : list record),
    create_and_populate_staging d = Ok d' ∧
    d' !! STAGING_TABLE = Some (Trace staged) ∧
    NoDup staged ∧
    (∀ r : record, r ∈ staged ↔ r ∈ filtered ∧ is_Some (mark r)) ∧
    (∀ t : string, t ≠ STAGING_TABLE → d' !! t = d !! t) ∧
    create_and_populate_staging d' = Ok d'.
Proof.
  intros Hf.
  assert (Hne : STAGING_TABLE ≠ FILTERED_TABLE) by discriminate.
  exists (<[STAGING_TABLE := Trace (staged_rows filtered)]> (delete STAGING_TABLE d)),
    (staged_rows filtered).
  split.
  { unfold create_and_populate_staging, drop_table_if_exists. cbn.
    rewrite lookup_delete_ne by exact Hne. now rewrite Hf. }
  split; [apply lookup_insert_eq|].
  destruct (staged_rows_spec filtered) as [Hnd Hin].
  split; [exact Hnd|]. split; [exact Hin|]. split.
  { intros t Ht. rewrite lookup_insert_ne by congruence.
    apply lookup_delete_ne. congruence. }
  unfold create_and_populate_staging, drop_table_if_exists. cbn.
  rewrite lookup_delete_ne by exact Hne.
  rewrite lookup_insert_ne by exact Hne.
  rewrite lookup_delete_ne by exact Hne. rewrite Hf.
  now rewrite delete_insert_eq, delete_delete_eq.
Qed.

Lemma staging_rebuilt_witness :
  ∃ (d' : db) (staged : list record),
    create_and_populate_staging Sample.staged_db = Ok d' ∧
    d' !! STAGING_TABLE = Some (Trace staged) ∧
    NoDup staged ∧
    (∀ r : record, r ∈ staged ↔
       r ∈ [Sample.pass "K0100+000" 1; Sample.pass "K0200+000" 2] ∧ is_Some (mark r)) ∧
    (∀ t : string, t ≠ STAGING_TABLE → d' !! t = Sample.staged_db !! t) ∧
    create_and_populate_staging d' = Ok d'.
Proof.
  apply (staging_rebuilt Sample.staged_db
           [Sample.pass "K0100+000" 1; Sample.pass "K0200+000" 2]).
  reflexivity.
Defined.

Lemma joined_spec (to_timestamp : string → option Z) (plates : list string)
    (raw : list raw_row) : ∀ new : list record,
  joined to_timestamp raw plates = Some new →
  (∀ r : record, r ∈ new →
     plate r ∈ plates ∧
     ∃ x : raw_row, x ∈ raw ∧ raw_plate x = Some (plate r) ∧ raw_mark x = mark r ∧
                    normalize to_timestamp x (plate r) = Some r) ∧
  (∀ (x : raw_row) (p : string),
     x ∈ raw → raw_plate x = Some p → p ∈ plates →
     ∃ r : record, r ∈ new ∧ normalize to_timestamp x p = Some r).
Proof.
  induction raw as [|x raw IH]; intros new H; cbn in H.
  - injection H as <-. split; [intros r Hr; inversion Hr|intros x p Hx; inversion Hx].
  - assert (Hskip : ∀ new',
      joined to_timestamp raw plates = Some new' →
      (∀ p : string, raw_plate x = Some p → p ∉ plates) →
      (∀ r : record, r ∈ new' →
         plate r ∈ plates ∧
         ∃ y : raw_row, y ∈ x :: raw ∧ raw_plate y = Some (plate r) ∧
                        raw_mark y = mark r ∧
                        normalize to_timestamp y (plate r) = Some r) ∧
      (∀ (y : raw_row) (p : string),
         y ∈ x :: raw → raw_plate y = Some p → p ∈ plates →
         ∃ r : record, r ∈ new' ∧ normalize to_timestamp y p = Some r)).
    { intros new' Hnew Hout. destruct (IH new' Hnew) as [IH1 IH2]. split.
      - intros r Hr. destruct (IH1 r Hr) as (Hp & y & Hy & Hrest).
        split; [exact Hp|]. exists y. split; [now apply list_elem_of_further|exact Hrest].
      - intros y p Hy Hyp Hp. apply elem_of_cons in Hy as [->|Hy].
        + now destruct (Hout p Hyp).
        + now apply (IH2 y p). }
    destruct (raw_plate x) as [p|] eqn:Hxp.
    + destruct (decide (p ∈ plates)) as [Hp|Hp].
      * destruct (normalize to_timestamp x p) as [r0|] eqn:Hn; [|discriminate].
        cbn in H.
        destruct (joined to_timestamp raw plates) as [new'|]; [|discriminate].
        cbn in H. injection H as <-. destruct (IH new' eq_refl) as [IH1 IH2].
        assert (Hr0 : plate r0 = p ∧ mark r0 = raw_mark x).
        { unfold normalize in Hn. destruct (raw_pass_time x) as [text|].
          - destruct (to_timestamp text); [|discriminate].
            cbn in Hn. injection Hn as <-. now split.
          - injection Hn as <-. now split. }
        destruct Hr0 as [Hr0p Hr0m]. split.
        -- intros r Hr. apply elem_of_cons in Hr as [->|Hr].
           ++ rewrite Hr0p. split; [exact Hp|].
              exists x. split; [apply list_elem_of_here|]. auto.
           ++ destruct (IH1 r Hr) as (Hrp & y & Hy & Hrest).
              split; [exact Hrp|]. exists y.
              split; [now apply list_elem_of_further|exact Hrest].
        -- intros y q Hy Hyq Hq. apply elem_of_cons in Hy as [->|Hy].
           ++ assert (q = p) as -> by congruence.
              exists r0. split; [apply list_elem_of_here|exact Hn].
           ++ destruct (IH2 y q Hy Hyq Hq) as (r & Hr & Hrn).
              exists r. split; [now apply list_elem_of_further|exact Hrn].
      * apply Hskip; [exact H|]. intros q [= <-]. exact Hp.
    + apply Hskip; [exact H|]. discriminate.
Qed.

(** X14. import_from_raw_to_filtered: what it appends to filtered_trace_data is
    free of duplicates and holds, with the time converted, exactly the raw
    rows whose plate is registered in vehicle_info; rows already filtered
    stay, and no other relation changes. *)
Theorem import_filtered_registered (to_timestamp : string → option Z) (d d' : db) :
  import_from_raw_to_filtered to_timestamp d = Ok d' →
  ∃ (old new : list record) (raw : list raw_row) (vehicles : list vehicle_info_row),
    d !! FILTERED_TABLE = Some (Trace old) ∧
    d !! RAW_TABLE = Some (RawTrace raw) ∧
    d !! "vehicle_info" = Some (VehicleInfo vehicles) ∧
    d' !! FILTERED_TABLE = Some (Trace (old ++ new)) ∧
    (∀ t : string, t ≠ FILTERED_TABLE → d' !! t = d !! t) ∧
    NoDup new ∧
    (∀ r : record, r ∈ new →
       plate r ∈ vi_plate <$> vehicles ∧
       ∃ x : raw_row, x ∈ raw ∧ raw_plate x = Some (plate r) ∧ raw_mark x = mark r ∧
                      normalize to_timestamp x (plate r) = Some r) ∧
    (∀ (x : raw_row) (p : string),
       x ∈ raw → raw_plate x = Some p → p ∈ vi_plate <$> vehicles →
       ∃ r : record, r ∈ new ∧ normalize to_timestamp x p = Some r).
Proof.
  unfold import_from_raw_to_filtered.
  destruct (d !! FILTERED_TABLE) as [[?|old|?]|]; try discriminate.
  destruct (d !! RAW_TABLE) as [[raw|?|?]|]; try discriminate.
  destruct (d !! "vehicle_info") as [[?|?|vehicles]|]; try discriminate.
  destruct (joined to_timestamp raw (vi_plate <$> vehicles)) as [new|] eqn:Hj;
    [|discriminate].
  intros [= <-]. exists old, (remove_dups new), raw, vehicles.
  destruct (joined_spec _ _ _ _ Hj) as [H1 H2].
  split; [reflexivity|]. split; [reflexivity|]. split; [reflexivity|].
  split; [apply lookup_insert_eq|].
  split; [intros t Ht; now rewrite lookup_insert_ne|].
  split; [apply NoDup_remove_dups|]. split.
  - intros r Hr. apply (proj1 (elem_of_remove_dups _ _)) in Hr. now apply H1.
  - intros x p Hx Hxp Hp. destruct (H2 x p Hx Hxp Hp) as (r & Hr & Hn).
    exists r. split; [now apply elem_of_remove_dups|exact Hn].
Qed.

Lemma import_filtered_registered_witness :
  ∃ (old new : list record) (raw : list raw_row) (vehicles : list vehicle_info_row),
    SampleMore.raw_db !! FILTERED_TABLE = Some (Trace old) ∧
    SampleMore.raw_db !! RAW_TABLE = Some (RawTrace raw) ∧
    SampleMore.raw_db !! "vehicle_info" = Some (VehicleInfo vehicles) ∧
    (<[FILTERED_TABLE := Trace [Sample.pass "K0100+000" 1]]> SampleMore.raw_db)
      !! FILTERED_TABLE = Some (Trace (old ++ new)) ∧
    (∀ t : string, t ≠ FILTERED_TABLE →
       (<[FILTERED_TABLE := Trace [Sample.pass "K0100+000" 1]]> SampleMore.raw_db) !! t
       = SampleMore.raw_db !! t) ∧
    NoDup new ∧
    (∀ r : record, r ∈ new →
       plate r ∈ vi_plate <$> vehicles ∧
       ∃ x : raw_row, x ∈ raw ∧ raw_plate x = Some (plate r) ∧ raw_mark x = mark r ∧
                      normalize SampleMore.clock x (plate r) = Some r) ∧
    (∀ (x : raw_row) (p : string),
       x ∈ raw → raw_plate x = Some p → p ∈ vi_plate <$> vehicles →
       ∃ r : record, r ∈ new ∧ normalize SampleMore.clock x p = Some r).
Proof.
  apply (import_filtered_registered SampleMore.clock SampleMore.raw_db
           (<[FILTERED_TABLE := Trace [Sample.pass "K0100+000" 1]]> SampleMore.raw_db)).
  vm_compute. reflexivity.
Defined.

End EngineMore.

(** ** Vehicle master data *)

Section VehiclesMore.
Import Client Processor Vehicles.

Lemma import_rows_app (committed_ : db) (l1 l2 : list (list string)) :
  ∀ (n : Z) (working : db),
    import_rows committed_ (l1 ++ l2) n working
    = import_rows committed_ l2 (import_rows committed_ l1 n working).1
        (import_rows committed_ l1 n working).2.
Proof.
  induction l1 as [|row l1 IH]; intros n working; [reflexivity|].
  cbn [app import_rows].
  destruct row as [|u [|ph [|pl [|vt [|? ?]]]]]; try apply IH.
  destruct (insert committed_ u ph pl vt working) as [[?|?] d]; apply IH.
Qed.

Lemma import_rows_count (committed_ : db) (rows : list (list string)) :
  ∀ (n : Z) (working : db),
    import_rows committed_ rows n working
    = (n + (import_rows committed_ rows 0 working).1,
       (import_rows committed_ rows 0 working).2).
Proof.
  induction rows as [|row rows IH]; intros n working.
  - cbn. now rewrite Z.add_0_r.
  - cbn [import_rows].
    destruct row as [|u [|ph [|pl [|vt [|? ?]]]]]; try apply IH.
    destruct (insert committed_ u ph pl vt working) as [[?|?] d]; [|apply IH].
    rewrite (IH (n + 1)), (IH (0 + 1)). cbn [fst snd]. f_equal. lia.
Qed.

Lemma import_rows_bounds (committed_ : db) (rows : list (list string)) :
  ∀ (n : Z) (working : db),
    n <= (import_rows committed_ rows n working).1
    <= n + Z.of_nat (List.length (well_formed_rows rows)).
Proof.
  unfold well_formed_rows.
  induction rows as [|row rows IH]; intros n working.
  - cbn. lia.
  - cbn [import_rows].
    destruct row as [|u [|ph [|pl [|vt [|? ?]]]]];
      try (rewrite filter_cons_False by (cbn; lia); apply IH).
    rewrite filter_cons_True by reflexivity. cbn [List.length].
    destruct (insert committed_ u ph pl vt working) as [[?|?] d].
    + specialize (IH (n + 1) d). lia.
    + specialize (IH n d). lia.
Qed.

(** X15. import_vehicle_info_from_csv: rows of the file that do not have exactly
    four fields play no part: importing the file is importing the file
    without them. *)
Theorem malformed_rows_skipped (header : list string) (rows : list (list string))
    (w : world) :
  import_vehicle_info_from_csv (Some (header :: rows)) w
  = import_vehicle_info_from_csv (Some (header :: well_formed_rows rows)) w.
Proof.
  assert (Hrows : ∀ (c : db) (n : Z) (working : db),
            import_rows c rows n working
            = import_rows c (well_formed_rows rows) n working).
  { intros c. unfold well_formed_rows.
    induction rows as [|row rows IH]; intros n working; [reflexivity|].
    destruct row as [|u [|ph [|pl [|vt [|? ?]]]]];
      try (rewrite filter_cons_False by (cbn; lia); cbn [import_rows]; apply IH).
    rewrite filter_cons_True by reflexivity. cbn [import_rows].
    destruct (insert c u ph pl vt working) as [[?|?] d]; apply IH. }
  unfold import_vehicle_info_from_csv, import_vehicle_info_from_csv_with.
  rewrite !db_connection_working.
  destruct (working_copy w) as [d|]; [|reflexivity].
  unfold import_info_body_with. cbn. now rewrite Hrows.
Qed.

(** X16. import_vehicle_info_from_csv: it raises nothing but IOError, and then
    the committed state is as before; it raises exactly when the file cannot
    be opened, has no header row, does not read to its end, or there is no
    connection; the count it returns lies between 0 and the number of rows
    with four fields. *)
Theorem import_vehicle_info_outcome (read_error : option exn)
    (file : option (list (list string))) (w : world) :
  (∀ e : exn,
     (import_vehicle_info_from_csv_with read_error file w).1 = Raise e →
     e = IOError ∧
     committed (import_vehicle_info_from_csv_with read_error file w).2 = committed w) ∧
  ((∃ e : exn, (import_vehicle_info_from_csv_with read_error file w).1 = Raise e) ↔
   file = None ∨ file = Some [] ∨ is_Some read_error ∨ working_copy w = None) ∧
  (∀ (header : list string) (rows : list (list string)) (n : Z),
     file = Some (header :: rows) →
     (import_vehicle_info_from_csv_with read_error file w).1 = Ok n →
     read_error = None ∧
     0 <= n <= Z.of_nat (List.length (well_formed_rows rows))) ∧
  import_vehicle_info_from_csv file w
  = import_vehicle_info_from_csv_with None file w.
Proof.
  assert (Hraising : ∀ (r : result Z * world),
    r.1 = Raise IOError → committed r.2 = committed w →
    (file = None ∨ file = Some [] ∨ is_Some read_error ∨ working_copy w = None) →
    (∀ e : exn, r.1 = Raise e → e = IOError ∧ committed r.2 = committed w) ∧
    ((∃ e : exn, r.1 = Raise e) ↔
     file = None ∨ file = Some [] ∨ is_Some read_error ∨ working_copy w = None) ∧
    (∀ (header : list string) (rows : list (list string)) (n : Z),
       file = Some (header :: rows) → r.1 = Ok n →
       read_error = None ∧
       0 <= n <= Z.of_nat (List.length (well_formed_rows rows)))).
  { intros r Hr Hc Hwhy. split; [|split].
    - intros e He. rewrite Hr in He. injection He as <-. now split.
    - split; [intros _; exact Hwhy|intros _; now exists IOError].
    - intros header rows n _ Hn. rewrite Hr in Hn. discriminate. }
  assert (Hall : ∀ A B C D : Prop, A ∧ B ∧ C → D → A ∧ B ∧ C ∧ D) by tauto.
  apply Hall; [|reflexivity].
  unfold import_vehicle_info_from_csv_with. rewrite db_connection_working.
  destruct (working_copy w) as [d|] eqn:Hw.
  2:{ apply Hraising; [reflexivity|reflexivity|]. now right; right; right. }
  unfold import_info_body_with.
  destruct file as [[|header rows]|].
  - destruct read_error as [err|];
      (apply Hraising; [reflexivity|reflexivity|]); now right; left.
  - destruct read_error as [err|].
    + apply Hraising; [reflexivity|reflexivity|]. right; right; left. now exists err.
    + cbn. destruct (import_rows (committed w) rows 0 d) as [k d'] eqn:Hrows. cbn.
      split; [discriminate|]. split.
      * split; [intros [e [=]]|].
        intros [[=]|[[=]|[[e [=]]|[=]]]].
      * intros h r n [= <- <-] [= <-]. split; [reflexivity|].
        pose proof (import_rows_bounds (committed w) rows 0 d) as Hb.
        rewrite Hrows in Hb. exact Hb.
  - apply Hraising; [reflexivity|reflexivity|]. now left.
Qed.

Lemma insert_too_long_phone (committed_ working : db)
    (username phone_num plate_ vehicle_type : string) :
  varchar 11 phone_num = None →
  ∃ e : exn,
    insert committed_ username phone_num plate_ vehicle_type working
    = (Raise e, committed_).
Proof.
  intros Hph. unfold insert, insert_statement. rewrite Hph.
  destruct (working !! "vehicle_info") as [[?|?|rows]|]; eauto.
  destruct (varchar 100 username); eauto.
Qed.

(** X17. import_vehicle_info_from_csv: a row that the INSERT rejects (here for a
    phone number that does not fit its column) rolls the transaction back:
    the committed state afterwards is what importing only the rows after it
    gives, while the rows inserted before it are still counted. *)
Theorem failing_row_discards_earlier (header : list string)
    (before rest : list (list string))
    (username phone_num plate_ vehicle_type : string) (w : world) (d : db) :
  working_copy w = Some d →
  varchar 11 phone_num = None →
  (import_vehicle_info_from_csv
     (Some (header :: before ++ [username; phone_num; plate_; vehicle_type] :: rest)) w).1
  = Ok ((import_rows (committed w) before 0 d).1
        + (import_rows (committed w) rest 0 (committed w)).1) ∧
  committed
    (import_vehicle_info_from_csv
       (Some (header :: before ++ [username; phone_num; plate_; vehicle_type] :: rest)) w).2
  = (import_rows (committed w) rest 0 (committed w)).2.
Proof.
  intros Hw Hph. unfold import_vehicle_info_from_csv, import_vehicle_info_from_csv_with.
  rewrite db_connection_working, Hw. unfold import_info_body_with. cbn.
  rewrite import_rows_app. cbn [import_rows].
  destruct (insert_too_long_phone (committed w)
              (import_rows (committed w) before 0 d).2
              username phone_num plate_ vehicle_type Hph) as [e ->].
  rewrite import_rows_count.
  destruct (import_rows (committed w) rest 0 (committed w)) as [k d'].
  cbn. split; reflexivity.
Qed.

Lemma failing_row_discards_earlier_witness :
  (import_vehicle_info_from_csv
     (Some (SampleMore.header
              :: [["Li"; "13800000000"; "A10001"; "truck"]]
              ++ ["Wu"; "138000000000"; "B20002"; "car"] :: []))%string
     SampleMore.fleet_world).1 = Ok (1 + 0) ∧
  committed
    (import_vehicle_info_from_csv
       (Some (SampleMore.header
                :: [["Li"; "13800000000"; "A10001"; "truck"]]
                ++ ["Wu"; "138000000000"; "B20002"; "car"] :: []))%string
       SampleMore.fleet_world).2 = SampleMore.empty_fleet.
Proof.
  apply (failing_row_discards_earlier SampleMore.header
           [["Li"; "13800000000"; "A10001"; "truck"]]%string []
           "Wu" "138000000000" "B20002" "car"
           SampleMore.fleet_world SampleMore.empty_fleet).
  - reflexivity.
  - reflexivity.
Defined.

Lemma varchar_fits (n : nat) (s : string) :
  (String.length s ≤ n)%nat → varchar n s = Some s.
Proof. intros H. unfold varchar. now rewrite decide_True by exact H. Qed.

Lemma import_rows_valid (committed_ : db)
    (rows : list (string * string * string * string)) :
  ∀ (n : Z) (working : db) (old : list vehicle_info_row),
    working !! "vehicle_info" = Some (VehicleInfo old) →
    Forall (λ '(u, ph, pl, vt),
              (String.length u ≤ 100 ∧ String.length ph ≤ 11 ∧
               String.length pl ≤ 20 ∧ String.length vt ≤ 50)%nat) rows →
    NoDup ((vi_plate <$> old) ++ ((λ '(u, ph, pl, vt), pl) <$> rows)) →
    import_rows committed_ ((λ '(u, ph, pl, vt), [u; ph; pl; vt]) <$> rows) n working
    = (n + Z.of_nat (List.length rows),
       <["vehicle_info" :=
          VehicleInfo (old ++ ((λ '(u, ph, pl, vt), new_vehicle u ph pl vt) <$> rows))]>
         working).
Proof.
  induction rows as [|[[[u ph] pl] vt] rows IH]; intros n working old Hold Hfit Hnd.
  - cbn. rewrite Z.add_0_r, app_nil_r. now rewrite insert_id.
  - apply Forall_cons in Hfit as [(Hu & Hph & Hpl & Hvt) Hfit'].
    cbn [fmap list_fmap import_rows].
    assert (Hfresh : pl ∉ vi_plate <$> old).
    { cbn in Hnd. apply NoDup_app in Hnd as (_ & Hdisj & _).
      intros Hin. apply (Hdisj pl Hin). apply list_elem_of_here. }
    unfold insert, insert_statement. rewrite Hold.
    rewrite (varchar_fits _ _ Hu), (varchar_fits _ _ Hph),
      (varchar_fits _ _ Hpl), (varchar_fits _ _ Hvt).
    rewrite decide_False by exact Hfresh.
    rewrite (IH (n + 1) _ (old ++ [new_vehicle u ph pl vt])).
    + rewrite insert_insert_eq, <- app_assoc. cbn [List.length app].
      f_equal. lia.
    + apply lookup_insert_eq.
    + exact Hfit'.
    + rewrite fmap_app, <- app_assoc. exact Hnd.
Qed.

Lemma filter_absent {A B} `{EqDecision B} (f : A → B) (b : B) (l : list A) :
  b ∉ f <$> l → filter (λ y, f y = b) l = [].
Proof.
  induction l as [|a l IH]; intros Hb; [reflexivity|].
  cbn in Hb. apply not_elem_of_cons in Hb as [Hne Hb].
  rewrite filter_cons_False by congruence. now apply IH.
Qed.

Lemma filter_unique {A B} `{EqDecision B} (f : A → B) (x : A) (l : list A) :
  NoDup (f <$> l) → x ∈ l → filter (λ y, f y = f x) l = [x].
Proof.
  induction l as [|a l IH]; intros Hnd Hx; [inversion Hx|].
  cbn in Hnd. apply NoDup_cons in Hnd as [Ha Hnd].
  apply elem_of_cons in Hx as [<-|Hx].
  - rewrite filter_cons_True by reflexivity. now rewrite filter_absent.
  - rewrite filter_cons_False.
    + now apply IH.
    + intros Heq. apply Ha. rewrite Heq. now apply list_elem_of_fmap_2.
Qed.

(** X18. import_vehicle_info_from_csv and query_vehicles: a file whose rows fit
    the columns and bring plates that are new and distinct is imported
    whole: the count is the number of rows, the rows are appended to
    vehicle_info in the order of the file with bonus 1, mileage 0, points 0
    and no last record, and a query for one of the plates returns exactly
    that vehicle. *)
Theorem imported_vehicles_are_found (w : world) (d : db)
    (old : list vehicle_info_row) (header : list string)
    (rows : list (string * string * string * string)) :
  working_copy w = Some d →
  d !! "vehicle_info" = Some (VehicleInfo old) →
  Forall (λ '(u, ph, pl, vt),
            (String.length u ≤ 100 ∧ String.length ph ≤ 11 ∧
             String.length pl ≤ 20 ∧ String.length vt ≤ 50)%nat) rows →
  NoDup ((vi_plate <$> old) ++ ((λ '(u, ph, pl, vt), pl) <$> rows)) →
  ∃ w' : world,
    import_vehicle_info_from_csv
      (Some (header :: ((λ '(u, ph, pl, vt), [u; ph; pl; vt]) <$> rows))) w
    = (Ok (Z.of_nat (List.length rows)), w') ∧
    committed w'
    = <["vehicle_info" :=
         VehicleInfo (old ++ ((λ '(u, ph, pl, vt), new_vehicle u ph pl vt) <$> rows))]> d ∧
    conn w' = Some (committed w') ∧
    ∀ u ph pl vt : string,
      (u, ph, pl, vt) ∈ rows → pl ≠ EmptyString →
      query_vehicles (Some pl) w' = ([new_vehicle u ph pl vt], w').
Proof.
  intros Hw Hold Hfit Hnd.
  unfold import_vehicle_info_from_csv, import_vehicle_info_from_csv_with. rewrite db_connection_working, Hw.
  unfold import_info_body_with. cbn.
  rewrite (import_rows_valid (committed w) rows 0 d old Hold Hfit Hnd). cbn.
  eexists. split; [reflexivity|]. cbn. split; [reflexivity|].
  split; [reflexivity|].
  intros u ph pl vt Hin Hpl.
  unfold query_vehicles. rewrite db_connection_working. cbn.
  rewrite decide_False by exact Hpl.
  unfold select_vehicle_info. rewrite lookup_insert_eq. cbn.
  set (new := (λ '(u, ph, pl, vt), new_vehicle u ph pl vt) <$> rows).
  assert (Hplates : vi_plate <$> (old ++ new)
                    = (vi_plate <$> old) ++ ((λ '(u, ph, pl, vt), pl) <$> rows)).
  { rewrite fmap_app. f_equal. unfold new. rewrite <- list_fmap_compose.
    apply list_fmap_ext. now intros _ [[[? ?] ?] ?] _. }
  assert (Hfound : filter (λ row, vi_plate row = pl) (old ++ new)
                   = [new_vehicle u ph pl vt]).
  { apply (filter_unique vi_plate (new_vehicle u ph pl vt) (old ++ new)).
    - now rewrite Hplates.
    - apply elem_of_app. right. unfold new.
      apply list_elem_of_fmap. now exists (u, ph, pl, vt). }
  now rewrite Hfound.
Qed.

Lemma imported_vehicles_are_found_witness :
  ∃ w' : world,
    import_vehicle_info_from_csv
      (Some [SampleMore.header; ["Li"; "13800000000"; "A10001"; "truck"];
             ["Wu"; "13900000000"; "B20002"; "car"]]%string)
      SampleMore.fleet_world = (Ok 2, w') ∧
    query_vehicles (Some "B20002"%string) w'
    = ([new_vehicle "Wu" "13900000000" "B20002" "car"], w').
Proof.
  destruct (imported_vehicles_are_found SampleMore.fleet_world SampleMore.empty_fleet
              [] SampleMore.header
              [("Li", "13800000000", "A10001", "truck");
               ("Wu", "13900000000", "B20002", "car")]%string)
    as (w' & Himport & _ & _ & Hquery).
  - reflexivity.
  - reflexivity.
  - constructor; [cbn; lia|]. constructor; [cbn; lia|constructor].
  - cbn. apply NoDup_cons. split.
    + intros H. apply list_elem_of_singleton in H. discriminate.
    + apply NoDup_singleton.
  - exists w'. split; [exact Himport|].
    apply (Hquery "Wu" "13900000000" "B20002" "car")%string.
    + apply list_elem_of_further, list_elem_of_here.
    + discriminate.
Defined.

(** X19. query_vehicles: an empty plate is no filter; a plate given returns the
    rows of that plate and nothing else; any failure gives the empty list;
    and over a connection without uncommitted work the query changes
    nothing. *)
Theorem query_vehicles_answers (w : world) :
  query_vehicles (Some EmptyString) w = query_vehicles None w ∧
  (∀ (d : db) (rows : list vehicle_info_row),
     working_copy w = Some d → d !! "vehicle_info" = Some (VehicleInfo rows) →
     (query_vehicles None w).1 ≡ₚ rows ∧
     ∀ p : string, p ≠ EmptyString →
       (query_vehicles (Some p) w).1 ≡ₚ filter (λ row, vi_plate row = p) rows) ∧
  (∀ p : option string,
     working_copy w = None ∨
     (∃ d : db, working_copy w = Some d ∧ d !! "vehicle_info" = None) →
     (query_vehicles p w).1 = []) ∧
  (∀ p : option string,
     conn w = Some (committed w) → (query_vehicles p w).2 = w).
Proof.
  split; [reflexivity|]. split; [|split].
  - intros d rows Hw Hrows. unfold query_vehicles.
    rewrite !db_connection_working, Hw. unfold query_body. cbn.
    unfold select_all_vehicle_info. rewrite Hrows. cbn.
    split; [reflexivity|]. intros p Hp.
    rewrite db_connection_working, Hw. cbn.
    rewrite decide_False by exact Hp.
    unfold select_vehicle_info. now rewrite Hrows.
  - intros p [Hw|(d & Hw & Hnone)]; unfold query_vehicles;
      rewrite db_connection_working, Hw; [reflexivity|].
    unfold query_body, select_all_vehicle_info, select_vehicle_info.
    destruct p as [p|]; cbn; [destruct (decide (p = EmptyString))|];
      now rewrite Hnone.
  - intros p Hconn. unfold query_vehicles. rewrite db_connection_working.
    unfold working_copy. rewrite Hconn. destruct w as [up c cn]. cbn in *.
    subst cn. unfold query_body.
    destruct (match p with
              | Some p0 =>
                  if decide (p0 = EmptyString) then select_all_vehicle_info c
                  else select_vehicle_info p0 c
              | None => select_all_vehicle_info c
              end); reflexivity.
Qed.

End VehiclesMore.

(** ** The request layer and the bootstrap *)

Section WebMore.
Import Client Processor Web InitDb.
#[local] Arguments Ascii.eqb : simpl never.

(** X20. process_vehicle_data and the confirm-execution request: whatever the
    host, the store and the connection, the run reports failure and the
    committed state is as before. *)
Theorem process_vehicle_data_never_succeeds (self : processor) (w : world) :
  (process_vehicle_data self w).1 = false ∧
  (confirm_execution self w).1 = false ∧
  committed (process_vehicle_data self w).2 = committed w ∧
  (∀ d : db, conn (process_vehicle_data self w).2 = Some d → d = committed w).
Proof.
  unfold confirm_execution, process_vehicle_data.
  destruct (process_vehicle_data_fails (fold_task self w) self w) as (H1 & H2 & H3).
  split; [exact H1|]. split; [exact H1|]. split; [exact H2|exact H3].
Qed.

Lemma truncate_table_inv (table : string) (d d' : db) :
  truncate_table table d = Ok d' →
  is_Some (d !! table) ∧
  (d' !! table = Some (RawTrace []) ∨ d' !! table = Some (Trace []) ∨
   d' !! table = Some (VehicleInfo [])) ∧
  ∀ t : string, t ≠ table → d' !! t = d !! t.
Proof.
  unfold truncate_table. destruct (d !! table) as [[?|?|?]|] eqn:Hd;
    [| | |discriminate]; intros [= <-]; (split; [eauto|]);
    rewrite lookup_insert_eq; (split; [auto|]);
    intros t Ht; now rewrite lookup_insert_ne.
Qed.

(** X21. The undo-import request: it answers success exactly when the connection
    sees a relation filtered_trace_data; then the committed relation is
    empty and every other relation is as the connection saw it. When it
    answers failure the committed state is as before. *)
Theorem undo_import_empties_filtered (w : world) :
  ((undo_import w).1 = true ↔
   ∃ d : db, working_copy w = Some d ∧ is_Some (d !! "filtered_trace_data")) ∧
  (∀ d : db, working_copy w = Some d → (undo_import w).1 = true →
     count_rows "filtered_trace_data" (committed (undo_import w).2) = Ok 0 ∧
     ∀ t : string, t ≠ "filtered_trace_data"%string →
       committed (undo_import w).2 !! t = d !! t) ∧
  ((undo_import w).1 = false → committed (undo_import w).2 = committed w).
Proof.
  unfold undo_import. rewrite db_connection_working.
  destruct (working_copy w) as [d|] eqn:Hw.
  - destruct (truncate_table "filtered_trace_data" d) as [d'|e] eqn:Ht; cbn.
    + destruct (truncate_table_inv _ _ _ Ht) as (Hsome & Hempty & Hrest).
      split; [split; [intros _; now exists d|reflexivity]|].
      split; [|discriminate].
      intros d0 [= <-] _. split; [|exact Hrest].
      unfold count_rows. now destruct Hempty as [->|[->| ->]].
    + split; [|split; [discriminate|reflexivity]].
      split; [discriminate|]. intros (d0 & [= <-] & [x Hx]).
      unfold truncate_table in Ht. rewrite Hx in Ht. now destruct x.
  - cbn. split; [|split; [discriminate|reflexivity]].
    split; [discriminate|]. now intros (d0 & [=] & _).
Qed.

Lemma has_dot_app (stem ext : string) :
  has_dot (stem +:+ String "." ext) = true.
Proof.
  induction stem as [|c stem IH].
  - change (has_dot (String "." ext) = true).
    cbn [has_dot]. now rewrite Ascii.eqb_refl.
  - change (Ascii.eqb c "." || has_dot (stem +:+ String "." ext) = true).
    rewrite IH. apply orb_true_r.
Qed.

Lemma after_last_dot_app (stem ext : string) :
  has_dot ext = false → after_last_dot (stem +:+ String "." ext) = ext.
Proof.
  intros Hext. induction stem as [|c stem IH].
  - change (after_last_dot (String "." ext) = ext).
    cbn [after_last_dot]. now rewrite Hext, Ascii.eqb_refl.
  - change (after_last_dot (String c (stem +:+ String "." ext)) = ext).
    cbn [after_last_dot]. now rewrite has_dot_app.
Qed.

(** X22. allowed_file: a name without a dot is refused; otherwise only what
    follows the last dot counts, compared in lower case with the allowed
    extensions (for an extension of ASCII characters, where [lower] is
    [str.lower()]). *)
Theorem allowed_file_by_extension (allowed_extensions : list string)
    (stem ext filename : string) :
  (has_dot filename = false → allowed_file allowed_extensions filename = false) ∧
  (has_dot ext = false → ascii_text ext = true →
   allowed_file allowed_extensions (stem +:+ String "." ext)
   = bool_decide (lower ext ∈ allowed_extensions)).
Proof.
  split.
  - intros H. unfold allowed_file. now rewrite H.
  - intros H _. unfold allowed_file.
    now rewrite has_dot_app, (after_last_dot_app stem ext H).
Qed.

Lemma allowed_file_by_extension_witness :
  allowed_file ["csv"%string] "trace.2024.CSV" = true ∧
  allowed_file ["csv"%string] "trace.csv.exe" = false.
Proof.
  split.
  - apply (proj2 (allowed_file_by_extension ["csv"%string] "trace.2024" "CSV"
                    EmptyString) eq_refl eq_refl).
  - apply (proj2 (allowed_file_by_extension ["csv"%string] "trace.csv" "exe"
                    EmptyString) eq_refl eq_refl).
Defined.

Lemma create_tables_spec (d : db) :
  is_Some (create_tables d !! "vehicle_info") ∧
  is_Some (create_tables d !! "vehicle_record") ∧
  (∀ (t : string) (x : table_rows), d !! t = Some x → create_tables d !! t = Some x) ∧
  (d !! "vehicle_info" = None →
   create_tables d !! "vehicle_info" = Some (VehicleInfo [])) ∧
  (d !! "vehicle_record" = None →
   create_tables d !! "vehicle_record" = Some (Trace [])) ∧
  (∀ t : string, t ≠ "vehicle_info"%string → t ≠ "vehicle_record"%string →
     create_tables d !! t = d !! t).
Proof.
  assert (Hne : ("vehicle_info" : string) ≠ "vehicle_record") by discriminate.
  unfold create_tables.
  set (d1 := match d !! "vehicle_info" with
             | Some _ => d
             | None => <["vehicle_info" := VehicleInfo []]> d
             end).
  assert (Hd1 : is_Some (d1 !! "vehicle_info") ∧
                (∀ (t : string) (x : table_rows), d !! t = Some x → d1 !! t = Some x) ∧
                (d !! "vehicle_info" = None →
                 d1 !! "vehicle_info" = Some (VehicleInfo [])) ∧
                (∀ t : string, t ≠ "vehicle_info"%string → d1 !! t = d !! t)).
  { unfold d1. destruct (d !! "vehicle_info") as [vi|] eqn:Hvi.
    - split; [rewrite Hvi; eauto|]. split; [auto|]. split; [discriminate|auto].
    - split; [rewrite lookup_insert_eq; eauto|]. split.
      + intros t x Ht. rewrite lookup_insert_ne; [exact Ht|]. congruence.
      + split; [intros _; apply lookup_insert_eq|].
        intros t Ht. now rewrite lookup_insert_ne. }
  clearbody d1. destruct Hd1 as (Hsome & Hkeep & Hnew & Hrest).
  destruct (d1 !! "vehicle_record") as [vr|] eqn:Hvr.
  - split; [exact Hsome|]. split; [rewrite Hvr; eauto|]. split; [exact Hkeep|].
    split; [exact Hnew|]. split.
    + intros Hnone. rewrite Hrest in Hvr by congruence. congruence.
    + intros t Ht _. now apply Hrest.
  - split; [rewrite lookup_insert_ne by congruence; exact Hsome|].
    split; [rewrite lookup_insert_eq; eauto|]. split.
    + intros t x Ht. rewrite lookup_insert_ne; [now apply Hkeep|].
      intros <-. rewrite (Hkeep _ _ Ht) in Hvr. discriminate.
    + split; [intros Hnone; rewrite lookup_insert_ne by congruence; now apply Hnew|].
      split; [intros _; apply lookup_insert_eq|].
      intros t Ht1 Ht2. rewrite lookup_insert_ne by congruence. now apply Hrest.
Qed.

Lemma create_tables_fixed (d : db) :
  is_Some (d !! "vehicle_info") → is_Some (d !! "vehicle_record") →
  create_tables d = d.
Proof.
  intros [vi Hvi] [vr Hvr]. unfold create_tables. now rewrite Hvi, Hvr.
Qed.

(** X23. init_postgres_db: with the server up it reports success and both table
    names, whether or not the tables existed; afterwards both exist, a table
    it had to create is empty, every relation that existed keeps its rows,
    and a second run changes nothing. With the server down it raises and the
    store is untouched. *)
Theorem init_postgres_db_idempotent (d : db) :
  (init_postgres_db true d).1
  = Ok {| success := true;
          created_tables := ["vehicle_info"; "vehicle_record"]%string |} ∧
  is_Some ((init_postgres_db true d).2 !! "vehicle_info") ∧
  is_Some ((init_postgres_db true d).2 !! "vehicle_record") ∧
  (∀ (t : string) (x : table_rows),
     d !! t = Some x → (init_postgres_db true d).2 !! t = Some x) ∧
  (d !! "vehicle_info" = None →
   (init_postgres_db true d).2 !! "vehicle_info" = Some (VehicleInfo [])) ∧
  (d !! "vehicle_record" = None →
   (init_postgres_db true d).2 !! "vehicle_record" = Some (Trace [])) ∧
  init_postgres_db true (init_postgres_db true d).2 = init_postgres_db true d ∧
  (∃ e : exn, init_postgres_db false d = (Raise e, d)).
Proof.
  destruct (create_tables_spec d) as (H1 & H2 & H3 & H4 & H5 & _).
  cbn. split; [reflexivity|]. split; [exact H1|]. split; [exact H2|].
  split; [exact H3|]. split; [exact H4|]. split; [exact H5|].
  split; [|now eexists].
  now rewrite (create_tables_fixed _ H1 H2).
Qed.

End WebMore.

(** ** The configuration *)

Section ConfigMore.
Import Config.
#[local] Arguments Ascii.eqb : simpl never.

Lemma split_dots_dot (a b : string) : ∀ current : string,
  split_dots current (a +:+ String "." b)
  = split_dots current a ++ split_dots EmptyString b.
Proof.
  induction a as [|c a IH]; intros current.
  - change (split_dots current (String "." b)
            = split_dots current EmptyString ++ split_dots EmptyString b).
    cbn [split_dots]. now rewrite Ascii.eqb_refl.
  - change (split_dots current (String c (a +:+ String "." b))
            = split_dots current (String c a) ++ split_dots EmptyString b).
    cbn [split_dots]. destruct (Ascii.eqb c "."); [|apply IH].
    cbn. f_equal. apply IH.
Qed.

Lemma split_dots_cons (s : string) : ∀ current : string,
  ∃ (k : string) (rest : list string), split_dots current s = k :: rest.
Proof.
  induction s as [|c s IH]; intros current; cbn; [eauto|].
  destruct (Ascii.eqb c "."); eauto.
Qed.

Lemma descend_app (keys1 keys2 : list string) : ∀ value : json,
  descend value (keys1 ++ keys2) = descend value keys1 ≫= λ v, descend v keys2.
Proof.
  induction keys1 as [|k keys1 IH]; intros value; [reflexivity|].
  cbn. destruct (subscript_key value k) as [v|]; [apply IH|reflexivity].
Qed.

(** X24. ConfigManager.get: a dotted key is looked up part by part: the value
    under [a.b] is the value under [b] in what [a] gives, and the default
    when [a] gives nothing or something that is not an object. A lookup
    inside a value that is not an object always gives the default. *)
Theorem config_get_nested (config default_ : json) (a b : string) :
  get config (a +:+ String "." b) default_ = get (get config a JNull) b default_ ∧
  (∀ value : json,
     (∀ members : list (string * json), value ≠ JObject members) →
     get value b default_ = default_).
Proof.
  assert (Hscalar : ∀ value : json,
            (∀ members : list (string * json), value ≠ JObject members) →
            get value b default_ = default_).
  { intros value Hvalue. unfold get.
    destruct (split_dots_cons b EmptyString) as (k & rest & ->). cbn.
    destruct value; try reflexivity. now destruct (Hvalue members). }
  split; [|exact Hscalar].
  unfold get at 1 3. rewrite split_dots_dot, descend_app.
  destruct (descend config (split_dots EmptyString a)) as [v|]; cbn.
  - reflexivity.
  - symmetry. apply Hscalar. discriminate.
Qed.

End ConfigMore.

(** ** Edge cases of the route and time-ordered batches *)

Section RouteEdge.
Import Route Fold FoldBody.
#[local] Arguments is_continuous : simpl never.
#[local] Arguments mileage_diff : simpl never.

(** X4. path_index: with two directions it raises nothing but ValueError, and
    raises exactly when no entry of either direction contains the mark; a
    route with a single direction raises IndexError for such a mark, and a
    route without directions for every mark; the empty text is contained in
    every entry and gets position 0. *)
Theorem path_index_failure (outbound inbound : list string)
    (more : list (list string)) (m : string) :
  (∀ e : exn,
     path_index (outbound :: inbound :: more) (Some m) = Raise e ↔
     e = ValueError ∧ ∀ q : string, q ∈ outbound ++ inbound → contains q m = false) ∧
  ((∀ q : string, q ∈ outbound → contains q m = false) →
   path_index [outbound] (Some m) = Raise IndexError) ∧
  path_index [] (Some m) = Raise IndexError ∧
  (∀ (p : string) (rest : list string),
     path_index ((p :: rest) :: more) (Some EmptyString) = Ok 0).
Proof.
  split; [|split; [|split]].
  - intros e. unfold path_index, subscript. cbn.
    destruct (scan m outbound 0) as [n|] eqn:Hout.
    + split; [discriminate|]. intros [_ Hnone]. exfalso.
      destruct (scan_Some_inv m outbound 0 n Hout) as (i & p & _ & Hi & Hp & _).
      rewrite Hnone in Hp; [discriminate|].
      apply elem_of_app. left. eapply list_elem_of_lookup_2; eauto.
    + destruct (scan m inbound 0) as [n|] eqn:Hin.
      * split; [discriminate|]. intros [_ Hnone]. exfalso.
        destruct (scan_Some_inv m inbound 0 n Hin) as (i & p & _ & Hi & Hp & _).
        rewrite Hnone in Hp; [discriminate|].
        apply elem_of_app. right. eapply list_elem_of_lookup_2; eauto.
      * split.
        -- intros [= <-]. split; [reflexivity|].
           intros q Hq. apply elem_of_app in Hq as [Hq|Hq].
           ++ now apply (scan_None_inv m outbound 0).
           ++ now apply (scan_None_inv m inbound 0).
        -- now intros [-> _].
  - intros Hnone. unfold path_index, subscript. cbn.
    now rewrite (scan_absent m outbound 0 Hnone).
  - reflexivity.
  - intros p rest. unfold path_index, subscript. cbn. now destruct p.
Qed.

Lemma process_record_fresh (standard_path : list (list string))
    (st : fold_state) (r : record) :
  stale st r = Ok false →
  process_record standard_path st r = credit_and_move standard_path st r.
Proof. intros Hstale. unfold process_record. now rewrite Hstale. Qed.

Lemma credit_and_move_position (standard_path : list (list string))
    (st s : fold_state) (r : record) :
  credit_and_move standard_path st r = Ok s →
  last_record s = mark r ∧ last_record_time s = pass_time r.
Proof.
  unfold credit_and_move. intros H.
  destruct (mark r) as [m|], (last_record st) as [lr|]; cbn in H;
    try (injection H as <-; now split).
  destruct (is_continuous standard_path m lr) as [[|]|e]; cbn in H;
    try discriminate; try (injection H as <-; now split).
  destruct (mileage_diff m lr) as [d|e]; cbn in H; [|discriminate].
  injection H as <-. now split.
Qed.

Lemma fold_every_last (standard_path : list (list string))
    (records : list record) : ∀ (st s : fold_state) (r : record),
  fold_every standard_path st records = Ok s → last records = Some r →
  last_record s = mark r ∧ last_record_time s = pass_time r.
Proof.
  induction records as [|x l IH]; intros st s r H Hlast; [discriminate|].
  cbn [fold_every] in H.
  destruct (credit_and_move standard_path st x) as [s1|e] eqn:Hstep;
    [|discriminate].
  change (fold_every standard_path s1 l = Ok s) in H.
  destruct l as [|y l'].
  - injection Hlast as <-. injection H as <-.
    now apply (credit_and_move_position standard_path st).
  - now apply (IH s1 s r H).
Qed.

(** X9. The loop of _process_single_plate on a batch in the order of the
    SELECT: when every event has a time, the times ascend and none is
    earlier than the time of the ledger, the loop skips no event: it computes
    what the loop without the guard computes, mileage included, and where it
    returns the ledger is at the mark and the time of the last event. It
    returns when the marks are known to the route model. *)
Theorem sorted_batch_ends_at_last (standard_path : list (list string))
    (records : list record) (st : fold_state) :
  Forall (λ x, is_Some (pass_time x)) records →
  StronglySorted (λ a b, pass_time_leb (pass_time a) (pass_time b) = true) records →
  (∀ t : Z, last_record_time st = Some t →
     Forall (λ x, ∃ p : Z, pass_time x = Some p ∧ t <= p) records) →
  fold_records standard_path st records = fold_every standard_path st records ∧
  (∀ (s : fold_state) (r : record),
     fold_records standard_path st records = Ok s → last records = Some r →
     last_record s = mark r ∧ last_record_time s = pass_time r) ∧
  ((∀ lr : string, last_record st = Some lr → known standard_path lr) →
   Forall (timed_known standard_path) records →
   ∃ s : fold_state, fold_records standard_path st records = Ok s).
Proof.
  intros Htimed Hsorted Htime.
  assert (Hsame : fold_records standard_path st records
                  = fold_every standard_path st records).
  { revert st Htime.
    induction records as [|x l IH]; intros st Htime; [reflexivity|].
    apply Forall_cons in Htimed as [[p Hp] Hl].
    apply StronglySorted_inv in Hsorted as [Hsorted Hafter].
    assert (Hstale : stale st x = Ok false).
    { unfold stale. destruct (last_record_time st) as [t|] eqn:Ht; [|reflexivity].
      specialize (Htime t eq_refl). apply Forall_cons in Htime as [(q & Hq & Hle) _].
      rewrite Hq. f_equal. now apply Z.ltb_ge. }
    cbn [fold_records fold_every].
    rewrite (process_record_fresh standard_path st x Hstale).
    destruct (credit_and_move standard_path st x) as [s1|e] eqn:Hstep;
      [|reflexivity].
    change (fold_records standard_path s1 l = fold_every standard_path s1 l).
    apply (IH Hl Hsorted).
    intros t Ht.
    destruct (credit_and_move_position _ _ _ _ Hstep) as [_ Hpass].
    rewrite Hpass, Hp in Ht. injection Ht as <-.
    rewrite Forall_forall in *. intros z Hz.
    destruct (Hl z Hz) as [q Hq]. exists q. split; [exact Hq|].
    specialize (Hafter z Hz). rewrite Hp, Hq in Hafter. cbn in Hafter.
    now apply Z.leb_le. }
  split; [exact Hsame|]. split.
  - intros s r Hs Hlast. rewrite Hsame in Hs.
    now apply (fold_every_last standard_path records st).
  - intros Hst Hknown.
    destruct (fold_records_latest standard_path records st Hst Hknown)
      as (s & Hs & _).
    now exists s.
Qed.

Lemma sorted_batch_ends_at_last_witness :
  fold_records default_standard_path Sample.at_start
    [Sample.pass "K0100+000" 1; Sample.pass "K0200+000" 2]
  = fold_every default_standard_path Sample.at_start
      [Sample.pass "K0100+000" 1; Sample.pass "K0200+000" 2] ∧
  ∃ s : fold_state,
    fold_records default_standard_path Sample.at_start
      [Sample.pass "K0100+000" 1; Sample.pass "K0200+000" 2] = Ok s ∧
    last_record s = Some "K0200+000"%string ∧ last_record_time s = Some 2.
Proof.
  destruct (sorted_batch_ends_at_last default_standard_path
              [Sample.pass "K0100+000" 1; Sample.pass "K0200+000" 2]
              Sample.at_start) as (Hsame & Hlast & Hreturns).
  - constructor; [now exists 1|]. constructor; [now exists 2|constructor].
  - constructor; [constructor; [constructor|constructor]|].
    constructor; [reflexivity|constructor].
  - intros t Ht. inversion Ht; subst.
    constructor; [exists 1; split; [reflexivity|lia]|].
    constructor; [exists 2; split; [reflexivity|lia]|constructor].
  - split; [exact Hsame|].
    destruct Hreturns as [s Hs].
    + intros lr Hlr. inversion Hlr; subst. split; vm_compute; reflexivity.
    + constructor; [|constructor; [|constructor]];
        apply pass_timed_known; split; vm_compute; reflexivity.
    + exists s. split; [exact Hs|].
      apply (Hlast s (Sample.pass "K0200+000" 2) Hs eq_refl).
Defined.

End RouteEdge.

(** ** The staging statements run again *)

Section StageAgain.
Import Client Processor.

(** X25. process_vehicle_data, lines 226-230: the three staging statements run a
    second time over the same filtered rows rebuild the same staging
    relation and append the staged rows to vehicle_record once more: the log
    holds them twice. *)
Theorem stage_twice_logs_twice (d : db) (filtered log : list record) :
  d !! FILTERED_TABLE = Some (Trace filtered) →
  d !! "vehicle_record" = Some (Trace log) →
  ∃ d3 d6 : db,
    stage d = Ok d3 ∧ stage d3 = Ok d6 ∧
    d6 !! STAGING_TABLE = d3 !! STAGING_TABLE ∧
    d3 !! "vehicle_record" = Some (Trace (log ++ staged_rows filtered)) ∧
    d6 !! "vehicle_record"
    = Some (Trace (log ++ staged_rows filtered ++ staged_rows filtered)).
Proof.
  intros Hf Hlog.
  destruct (stage_staged d filtered log Hf Hlog) as (d3 & H3 & Hs3 & Hl3 & Hf3).
  destruct (stage_staged d3 filtered _ Hf3 Hl3) as (d6 & H6 & Hs6 & Hl6 & _).
  exists d3, d6. split; [exact H3|]. split; [exact H6|].
  split; [congruence|]. split; [exact Hl3|].
  now rewrite Hl6, <- app_assoc.
Qed.

Lemma stage_twice_logs_twice_witness :
  ∃ d3 d6 : db,
    stage Sample.staged_db = Ok d3 ∧ stage d3 = Ok d6 ∧
    d6 !! STAGING_TABLE = d3 !! STAGING_TABLE ∧
    d3 !! "vehicle_record"
    = Some (Trace ([] ++ staged_rows [Sample.pass "K0100+000" 1;
                                      Sample.pass "K0200+000" 2])) ∧
    d6 !! "vehicle_record"
    = Some (Trace ([] ++ staged_rows [Sample.pass "K0100+000" 1;
                                      Sample.pass "K0200+000" 2]
                      ++ staged_rows [Sample.pass "K0100+000" 1;
                                      Sample.pass "K0200+000" 2])).
Proof.
  apply (stage_twice_logs_twice Sample.staged_db
           [Sample.pass "K0100+000" 1; Sample.pass "K0200+000" 2] []).
  - reflexivity.
  - reflexivity.
Defined.

End StageAgain.
